(** * Market sentiment signal pipeline (single_generator.py, data_fatcher.py)

    A shallow embedding of the signal generator: the retry decorator, the
    CSV loader and source resolution of [main], the inner-join merge, the
    data validator, the threshold rule and the HOLD-run statistics.

    Conventions.
    - A pandas cell is a [float]: NaN, an infinity or a finite rational
      (every finite binary64 value is a rational; only comparisons are
      used, never arithmetic on cells).
    - A [Timestamp] is pandas' integer count of nanoseconds since the epoch,
      a [Timedelta] a difference of two of them.
    - A Python call that may raise returns a [result].
    - Code that talks to the file system or the clock threads a world [W]. *)

From Stdlib Require Import ZArith QArith Lia.
From stdpp Require Import base list sorting strings.

Local Open Scope string_scope.
Local Open Scope list_scope.
Local Open Scope Z_scope.

(* ------------------------------------------------------------------ *)
(** ** Python values *)

(** The exceptions the two modules raise or catch.  [BaseError] stands for
    the exceptions that derive from BaseException but not from Exception
    (KeyboardInterrupt, SystemExit): [except Exception] does not catch them. *)
Inductive exn : Type :=
| FileNotFoundError (msg : string)
| PermissionError (msg : string)
| ValueError (msg : string)
| KeyError (key : string)
| OtherError (msg : string)
| BaseError (msg : string).

Definition is_Exception (e : exn) : bool :=
  match e with BaseError _ => false | _ => true end.

Definition is_FileNotFoundError (e : exn) : bool :=
  match e with FileNotFoundError _ => true | _ => false end.

Definition is_PermissionError (e : exn) : bool :=
  match e with PermissionError _ => true | _ => false end.

Inductive result (A : Type) : Type :=
| Ok (a : A)
| Raise (e : exn).
Arguments Ok {A} a.
Arguments Raise {A} e.

(** A float cell. *)
Inductive float : Type :=
| NaN
| NegInf
| Fin (q : Q)
| PosInf.

(** [pd.isna] *)
Definition isna (x : float) : bool :=
  match x with NaN => true | _ => false end.

(** [x <= y] on floats: false as soon as one side is NaN. *)
Definition fle (x y : float) : bool :=
  match x, y with
  | NaN, _ | _, NaN => false
  | NegInf, _ => true
  | _, PosInf => true
  | Fin a, Fin b => Qle_bool a b
  | _, _ => false
  end.

(** [x < y] on floats. *)
Definition flt (x y : float) : bool :=
  match x, y with
  | NaN, _ | _, NaN => false
  | NegInf, NegInf => false
  | NegInf, _ => true
  | PosInf, _ => false
  | _, PosInf => true
  | Fin a, Fin b => negb (Qle_bool b a)
  | _, _ => false
  end.

Definition fge (x y : float) : bool := fle y x.
Definition fgt (x y : float) : bool := flt y x.

(** The order of the extended rationals, as propositions; NaN is related
    to nothing. *)
Inductive Fle : float → float → Prop :=
| Fle_neginf y : y ≠ NaN → Fle NegInf y
| Fle_posinf x : x ≠ NaN → Fle x PosInf
| Fle_fin a b : (a <= b)%Q → Fle (Fin a) (Fin b).

Inductive Flt : float → float → Prop :=
| Flt_neginf_fin b : Flt NegInf (Fin b)
| Flt_neginf_posinf : Flt NegInf PosInf
| Flt_fin_posinf a : Flt (Fin a) PosInf
| Flt_fin a b : (a < b)%Q → Flt (Fin a) (Fin b).

Definition of_Z (z : Z) : float := Fin (inject_Z z).

(** The trading labels. *)
Inductive signal : Type := BUY | SELL | HOLD.

Global Instance signal_eq_dec : EqDecision signal.
Proof. solve_decision. Defined.

(** One row of a frame, as [df.apply(..., axis=1)] passes it: the column
    labels with the row's cells.  [row[k]] raises KeyError without [k] and
    is the cell under [k] when the labels are distinct.  Under a label that
    occurs twice pandas hands back all its cells, not one: [getitem] covers
    rows of distinct labels, and the results about single cells assume
    [NoDup row.*1]. *)
Definition Row : Type := list (string * float).

Fixpoint getitem (row : Row) (k : string) : result float :=
  match row with
  | [] => Raise (KeyError k)
  | (c, v) :: rest => if String.eqb c k then Ok v else getitem rest k
  end.

(* ------------------------------------------------------------------ *)
(** ** Signal rules *)

Module SignalGenerator.

Record t : Type := {
  buy_fg_threshold : float;
  buy_vix_threshold : float;
  sell_fg_threshold : float;
  sell_vix_threshold : float
}.

(** The constructor stores its four arguments. *)
Definition __init__ (buy_fg buy_vix sell_fg sell_vix : float) : result t :=
  Ok {| buy_fg_threshold := buy_fg;
        buy_vix_threshold := buy_vix;
        sell_fg_threshold := sell_fg;
        sell_vix_threshold := sell_vix |}.

(** [SignalGenerator()] *)
Definition default : t :=
  {| buy_fg_threshold := of_Z 20;
     buy_vix_threshold := of_Z 30;
     sell_fg_threshold := of_Z 80;
     sell_vix_threshold := of_Z 15 |}.

Definition generate_signal (self : t) (row : Row) : result signal :=
  match getitem row "cnn_fg" with
  | Raise e => Raise e
  | Ok fg =>
    match getitem row "vix" with
    | Raise e => Raise e
    | Ok vix =>
      if isna fg || isna vix then Ok HOLD
      else if fle fg (buy_fg_threshold self) && fge vix (buy_vix_threshold self)
      then Ok BUY
      else if fge fg (sell_fg_threshold self) && fle vix (sell_vix_threshold self)
      then Ok SELL
      else Ok HOLD
    end
  end.

End SignalGenerator.

(** The invariant the specification asks of a threshold configuration. *)
Definition threshold_invariant (buy_fg buy_vix sell_fg sell_vix : float) : Prop :=
  Flt buy_fg sell_fg ∧ Flt sell_vix buy_vix.

(* ------------------------------------------------------------------ *)
(** ** Computations in a world *)

(** A call that reads the file system or the clock: it takes the world and
    gives back its outcome with the world it leaves. *)
Definition IO (W A : Type) : Type := W → result A * W.

(** [range(n)] *)
Definition range (n : Z) : list Z := seqZ 0 n.

(** A file under a directory: [str] is the full path, [name] the last
    component. *)
Record Path : Type := { parent : string; name : string }.

Definition path_str (p : Path) : string := parent p +:+ "/" +:+ name p.

Definition PROJECT_ROOT : string := "C:\Jack\投資管理\市場情緒分析\VIX跟CNN恐慌指數".
Definition RAW_DIR : string := PROJECT_ROOT +:+ "/data/raw".
Definition PROCESSED_DIR : string := PROJECT_ROOT +:+ "/data/processed".

Definition path_join (dir file : string) : Path := {| parent := dir; name := file |}.

Definition Timestamp : Type := Z.
Definition Timedelta : Type := Z.

Record Series : Type := {
  sname : string;
  items : list (Timestamp * float)
}.

(** A frame: the column labels and, per index entry, the cells of the row in
    column order. *)
Record DataFrame : Type := {
  columns : list string;
  rows : list (Timestamp * list float)
}.

(* ------------------------------------------------------------------ *)
(** ** Logging *)

(** The log records on which the pipeline's behaviour is observed.  The text
    of a record is reduced to what it reports. *)
Inductive level : Type := INFO | WARNING | ERROR.

Inductive event : Type :=
| MergedShape (nrows ncols : nat)
| MissingValues (counts : list (string * nat))
| NegativeVix
| FearGreedOutOfRange
| LargeDateGap
| SignalCounts
| AverageHold (avg : Q).

Definition LogRecord : Type := level * event.


(* ------------------------------------------------------------------ *)
(** ** Merging (step 3 of [main])

    [pd.concat(objs, axis=1, join="inner")] and [sort_index()] belong to
    pandas; they are written out here as pandas 2 documents and implements
    them for series over a DatetimeIndex. *)

Definition index_of (s : Series) : list Timestamp := (items s).*1.

Definition has_duplicates (idx : list Timestamp) : bool :=
  negb (bool_decide (NoDup idx)).

(** [Index.intersection(other, sort=False)]: the distinct labels of the left
    index that the right index has, in the order of the left index. *)
Definition intersection (l r : list Timestamp) : list Timestamp :=
  remove_dups (filter (λ t, t ∈ r) l).

(** The index of an inner concat: the index of a single object as it is,
    else the first index intersected with each of the others in turn. *)
Definition combined_index (ss : list Series) : list Timestamp :=
  match ss with
  | [] => []
  | s :: rest => foldl (λ acc o, intersection acc (index_of o)) (index_of s) rest
  end.

(** The cell of a series at a label, NaN when the label is absent. *)
Fixpoint series_get (its : list (Timestamp * float)) (t : Timestamp) : float :=
  match its with
  | [] => NaN
  | (t', v) :: rest => if bool_decide (t' = t) then v else series_get rest t
  end.

(** Aligning one series with the combined index: nothing to do when it has
    that very index, a lookup by label otherwise, which pandas refuses on an
    index with duplicate labels. *)
Definition reindex (s : Series) (idx : list Timestamp) : result (list float) :=
  if bool_decide (index_of s = idx) then Ok (items s).*2
  else if has_duplicates (index_of s)
  then Raise (ValueError "cannot reindex on an axis with duplicate labels")
  else Ok (series_get (items s) <$> idx).

Fixpoint map_result {A B : Type} (f : A → result B) (l : list A) : result (list B) :=
  match l with
  | [] => Ok []
  | x :: rest =>
    match f x with
    | Raise e => Raise e
    | Ok y =>
      match map_result f rest with
      | Raise e => Raise e
      | Ok ys => Ok (y :: ys)
      end
    end
  end.

(** The rows of a frame from its index and its columns. *)
Fixpoint build_rows (idx : list Timestamp) (cols : list (list float))
    : list (Timestamp * list float) :=
  match idx with
  | [] => []
  | t :: idx' => (t, hd NaN <$> cols) :: build_rows idx' (tail <$> cols)
  end.

(** [pd.concat(objs, axis=1, join="inner")] on series: no object at all is
    an error, None objects are dropped, and nothing left is an error. *)
Definition concat_inner (objs : list (option Series)) : result DataFrame :=
  let ss := omap id objs in
  match ss with
  | [] =>
    match objs with
    | [] => Raise (ValueError "No objects to concatenate")
    | _ => Raise (ValueError "All objects passed were None")
    end
  | _ =>
    let idx := combined_index ss in
    match map_result (λ s, reindex s idx) ss with
    | Raise e => Raise e
    | Ok cols => Ok {| columns := sname <$> ss; rows := build_rows idx cols |}
    end
  end.

Definition row_le (a b : Timestamp * list float) : Prop := a.1 ≤ b.1.

Global Instance row_le_dec : RelDecision row_le.
Proof. intros a b. unfold row_le. apply _. Defined.

(** [df.sort_index()] *)
Definition sort_index (df : DataFrame) : DataFrame :=
  {| columns := columns df; rows := merge_sort row_le (rows df) |}.

(** [df.index] *)
Definition index (df : DataFrame) : list Timestamp := (rows df).*1.

(* ------------------------------------------------------------------ *)
(** ** Data validation *)

Definition row_of (df : DataFrame) (r : Timestamp * list float) : Row :=
  zip (columns df) r.2.

Definition cell (df : DataFrame) (k : string) (r : Timestamp * list float) : float :=
  match getitem (row_of df r) k with
  | Ok v => v
  | Raise _ => NaN
  end.

(** [df[k]]: the cells of column [k], KeyError without it.  For a frame of
    distinct column labels ([NoDup (columns df)]); under a repeated label
    pandas yields a frame, not a column. *)
Definition column (df : DataFrame) (k : string) : result (list float) :=
  if bool_decide (k ∈ columns df) then Ok (cell df k <$> rows df)
  else Raise (KeyError k).

(** [df.isnull().sum()]: the number of NaN cells per column, the columns
    found by their labels, which are distinct. *)
Definition isnull_sum (df : DataFrame) : list (string * nat) :=
  (λ k, (k, length (filter (λ v, isna v = true) (cell df k <$> rows df)))) <$> columns df.

(** [series.diff()] on timestamps: NaT (None) first, then the differences. *)
Fixpoint diff_from (prev : Timestamp) (l : list Timestamp) : list (option Timedelta) :=
  match l with
  | [] => []
  | x :: rest => Some (x - prev) :: diff_from x rest
  end.

Definition diff (l : list Timestamp) : list (option Timedelta) :=
  match l with
  | [] => []
  | x :: rest => None :: diff_from x rest
  end.

(** [series.max()]: the largest entry that is not NaT, NaT when there is
    none. *)
Fixpoint series_max (l : list (option Timedelta)) : option Timedelta :=
  match l with
  | [] => None
  | None :: rest => series_max rest
  | Some x :: rest =>
    match series_max rest with
    | None => Some x
    | Some m => Some (Z.max x m)
    end
  end.

Definition ns_per_day : Z := 86400000000000.

(** [.days] of a Timedelta is its whole number of days, rounded down;
    [NaT.days] is NaN. *)
Definition days (td : option Timedelta) : float :=
  match td with
  | None => NaN
  | Some ns => of_Z (ns / ns_per_day)
  end.

Definition _validate_data (df : DataFrame) : list LogRecord * result unit :=
  let missing_data := isnull_sum df in
  let log :=
    if existsb (λ kv, negb (kv.2 =? 0)%nat) missing_data
    then [(WARNING, MissingValues (filter (λ kv, (0 < kv.2)%nat) missing_data))]
    else [] in
  match column df "vix" with
  | Raise e => (log, Raise e)
  | Ok vix =>
    if existsb (λ v, flt v (of_Z 0)) vix
    then (log ++ [(ERROR, NegativeVix)], Raise (ValueError "Invalid VIX data"))
    else
      match column df "cnn_fg" with
      | Raise e => (log, Raise e)
      | Ok cnn_fg =>
        if existsb (λ v, flt v (of_Z 0)) cnn_fg || existsb (λ v, fgt v (of_Z 100)) cnn_fg
        then (log ++ [(ERROR, FearGreedOutOfRange)],
              Raise (ValueError "Invalid CNN Fear & Greed data"))
        else
          let date_diff := diff (index df) in
          if fgt (days (series_max date_diff)) (of_Z 5)
          then (log ++ [(WARNING, LargeDateGap)], Ok tt)
          else (log, Ok tt)
      end
  end.

(* ------------------------------------------------------------------ *)
(** ** Labelling (step 5 of [main]) *)

(** What [df.apply(f, axis=1)] gives: a series with one entry per row, or,
    for a frame without rows on which [f] cannot be probed, a copy of the
    frame. *)
Inductive applied : Type :=
| AppliedSeries (l : list signal)
| AppliedFrame (df : DataFrame).

(** [df.apply(f, axis=1)].  On a frame without rows pandas calls [f] once on
    a row of NaN over the columns to see whether it reduces: when the call
    returns, the result is an empty series; when it raises an Exception, the
    result is a copy of the frame. *)
Definition apply_rows (f : Row → result signal) (df : DataFrame) : result applied :=
  match rows df with
  | [] =>
    match f ((λ c, (c, NaN)) <$> columns df) with
    | Ok _ => Ok (AppliedSeries [])
    | Raise e => if is_Exception e then Ok (AppliedFrame df) else Raise e
    end
  | _ =>
    match map_result f (row_of df <$> rows df) with
    | Ok l => Ok (AppliedSeries l)
    | Raise e => Raise e
    end
  end.

(** The frame with its [signal] column. *)
Record LabeledFrame : Type := {
  frame : DataFrame;
  signals : list signal
}.

(** [df["signal"] = value]: a series is stored as the new column; a frame is
    accepted only with exactly one column (here always without rows). *)
Definition setitem_signal (df : DataFrame) (value : applied) : result LabeledFrame :=
  match value with
  | AppliedSeries l => Ok {| frame := df; signals := l |}
  | AppliedFrame v =>
    match columns v with
    | [_] => Ok {| frame := df; signals := [] |}
    | [] => Raise (ValueError "Cannot set a DataFrame without columns to the column signal")
    | _ => Raise (ValueError
             "Cannot set a DataFrame with multiple columns to the single column signal")
    end
  end.

(* ------------------------------------------------------------------ *)
(** ** Statistics *)

(** The loop of [_print_signal_stats], on the state
    [(hold_periods, current_period)]. *)
Fixpoint hold_loop (sigs : list signal) (hold_periods : list Z) (current_period : Z)
    : list Z * Z :=
  match sigs with
  | [] => (hold_periods, current_period)
  | s :: rest =>
    if bool_decide (s = HOLD) then hold_loop rest hold_periods (current_period + 1)
    else
      hold_loop rest
        (if 0 <? current_period then hold_periods ++ [current_period] else hold_periods)
        0
  end.

(** [hold_periods] when the loop is over. *)
Definition hold_periods_of (sigs : list signal) : list Z := (hold_loop sigs [] 0).1.

Definition sum (l : list Z) : Z := foldr Z.add 0 l.

(** [sum(hold_periods) / len(hold_periods)], computed only under
    [if hold_periods:]. *)
Definition avg_hold (hold_periods : list Z) : option Q :=
  match hold_periods with
  | [] => None
  | _ => Some (inject_Z (sum hold_periods) / inject_Z (Z.of_nat (length hold_periods)))%Q
  end.

Definition _print_signal_stats (df : LabeledFrame) : list LogRecord :=
  (INFO, SignalCounts) ::
  match avg_hold (hold_periods_of (signals df)) with
  | Some avg => [(INFO, AverageHold avg)]
  | None => []
  end.

(** The run lengths as the specification words them: the lengths of the
    maximal contiguous runs of HOLD, a run that reaches the end of the
    sequence included.  [cur] is the length of the run being read. *)
Fixpoint spec_hold_runs_from (sigs : list signal) (cur : Z) : list Z :=
  match sigs with
  | [] => if 0 <? cur then [cur] else []
  | HOLD :: rest => spec_hold_runs_from rest (cur + 1)
  | _ :: rest => (if 0 <? cur then [cur] else []) ++ spec_hold_runs_from rest 0
  end.

Definition spec_hold_runs (sigs : list signal) : list Z := spec_hold_runs_from sigs 0.

(** The mean as the specification words it: 0 without runs. *)
Definition spec_mean (runs : list Z) : Q :=
  match runs with
  | [] => 0%Q
  | _ => (inject_Z (sum runs) / inject_Z (Z.of_nat (length runs)))%Q
  end.

(* ------------------------------------------------------------------ *)
(** ** Steps 3 to 6 of [main] *)

Definition process (objs : list (option Series)) : list LogRecord * result LabeledFrame :=
  match concat_inner objs with
  | Raise e => ([], Raise e)
  | Ok merged =>
    let df := sort_index merged in
    let log := [(INFO, MergedShape (length (rows df)) (length (columns df)))] in
    let '(findings, verdict) := _validate_data df in
    match verdict with
    | Raise e => (log ++ findings, Raise e)
    | Ok _ =>
      let generator := SignalGenerator.default in
      match apply_rows (SignalGenerator.generate_signal generator) df with
      | Raise e => (log ++ findings, Raise e)
      | Ok value =>
        match setitem_signal df value with
        | Raise e => (log ++ findings, Raise e)
        | Ok labeled => (log ++ findings ++ _print_signal_stats labeled, Ok labeled)
        end
      end
    end
  end.

Section World.

Context {W : Type}.

(** What happens to the world while the process sleeps [secs] seconds. *)
Variable elapse : Z → W → W.

(** [time.sleep(secs)]: a negative length is a ValueError. *)
Definition time_sleep (secs : Z) : IO W unit := λ w,
  if secs <? 0 then (Raise (ValueError "sleep length must be non-negative"), w)
  else (Ok tt, elapse secs w).

(* ---------------------------------------------------------------- *)
(** *** Decorators *)

Section Retry.

Context {A : Type}.
Variables (max_retries delay : Z).

(** The wrapped function, applied to the wrapper's arguments. *)
Variable func : IO W A.

(** The body of [wrapper]: the [for] loop over the attempts left, then
    the trailing [return None].  A result [Some v] is a value [func]
    returned, [None] is Python's None of the last line.  The warning
    logged before each sleep is not modelled. *)
Fixpoint wrapper_loop (attempts : list Z) (w : W) : result (option A) * W :=
  match attempts with
  | [] => (Ok None, w)
  | attempt :: rest =>
    match func w with
    | (Ok v, w1) => (Ok (Some v), w1)
    | (Raise e, w1) =>
      if is_Exception e then
        if attempt =? max_retries - 1 then (Raise e, w1)
        else
          match time_sleep delay w1 with
          | (Ok _, w2) => wrapper_loop rest w2
          | (Raise e', w2) => (Raise e', w2)
          end
      else (Raise e, w1)
    end
  end.

Definition retry_on_error : IO W (option A) :=
  wrapper_loop (range max_retries).

End Retry.

(* ---------------------------------------------------------------- *)
(** *** Data loading *)

(** The series store: whether a path exists, and [pd.read_csv(path,
    index_col=0, parse_dates=True)], which gives the frame of the data
    columns indexed by the first column, or raises. *)
Variable path_exists : Path → W → bool.
Variable read_csv : Path → IO W DataFrame.

(** [value_col or name] *)
Definition or_name (value_col : option string) (nm : string) : string :=
  match value_col with
  | Some c => if String.eqb c "" then nm else c
  | None => nm
  end.

(** [df.iloc[:, 0]] of a frame with one column. *)
Definition iloc_col0 (df : DataFrame) : Series :=
  {| sname := hd "" (columns df);
     items := (λ r, (r.1, hd NaN r.2)) <$> rows df |}.

(** The undecorated [_load_series].  Its outer handler logs and re-raises
    the exception it caught, so it is transparent here. *)
Definition _load_series_body (path : Path) (value_col : option string) : IO W Series := λ w,
  if negb (path_exists path w)
  then (Raise (FileNotFoundError ("找不到檔案：" +:+ path_str path)), w)
  else
    let '(r, w1) :=
      match read_csv path w with
      | (Raise e, w1) =>
        if is_PermissionError e then
          match time_sleep 1 w1 with
          | (Ok _, w2) => read_csv path w2
          | (Raise e', w2) => (Raise e', w2)
          end
        else (Raise e, w1)
      | (Ok df, w1) => (Ok df, w1)
      end in
    match r with
    | Raise e => (Raise e, w1)
    | Ok df =>
      if bool_decide (length (columns df) = 1%nat)
      then
        let series := iloc_col0 df in
        (Ok {| sname := or_name value_col (sname series); items := items series |}, w1)
      else (Raise (ValueError ("Expected exactly 1 data column in " +:+ name path)), w1)
    end.

(** [@retry_on_error(max_retries=3, delay=1)] *)
Definition _load_series (path : Path) (value_col : option string) : IO W (option Series) :=
  retry_on_error 3 1 (_load_series_body path value_col).

(* ---------------------------------------------------------------- *)
(** *** Source resolution (step 2 of [main]) *)

Inductive source : Type :=
| File (file : string)
| Files (files : list string).

Record config : Type := {
  src : source;
  col : string;
  required : bool
}.

Definition data_sources : list (string * config) :=
  [ ("spy", {| src := File "spy.csv"; col := "spy_price"; required := true |});
    ("vix", {| src := File "vix.csv"; col := "vix"; required := true |});
    ("cnn_fg",
     {| src := Files ["fear_greed_historical.csv"; "cnn_fear_greed_current.csv";
                      "cnn_fear_greed.csv"];
        col := "cnn_fg"; required := true |}) ].

(** [series_dict]: a dict keeps its keys in insertion order, and assigning
    to a key it has replaces the value in place. *)
Definition dict : Type := list (string * option Series).

Fixpoint dict_set (d : dict) (k : string) (v : option Series) : dict :=
  match d with
  | [] => [(k, v)]
  | (k', v') :: rest =>
    if String.eqb k' k then (k, v) :: rest else (k', v') :: dict_set rest k v
  end.

Definition dict_mem (d : dict) (k : string) : bool :=
  existsb (λ kv, String.eqb kv.1 k) d.

Definition dict_values (d : dict) : list (option Series) := d.*2.

(** The inner [for file in config["files"]] loop. *)
Fixpoint try_files (key : string) (c : string) (files : list string)
    (series_dict : dict) (w : W) : result dict * W :=
  match files with
  | [] => (Ok series_dict, w)
  | file :: rest =>
    match _load_series (path_join RAW_DIR file) (Some c) w with
    | (Ok s, w1) => (Ok (dict_set series_dict key s), w1)
    | (Raise e, w1) =>
      if is_FileNotFoundError e then try_files key c rest series_dict w1
      else (Raise e, w1)
    end
  end.

(** The candidates [files], loaded in turn from the world [w], all fail
    with FileNotFoundError and leave the world [w']. *)
Inductive all_missing (c : string) : list string → W → W → Prop :=
| all_missing_nil w : all_missing c [] w w
| all_missing_cons file files msg w w1 w2 :
    _load_series (path_join RAW_DIR file) (Some c) w
      = (Raise (FileNotFoundError msg), w1) →
    all_missing c files w1 w2 →
    all_missing c (file :: files) w w2.

(** One iteration of [for key, config in data_sources.items()]. *)
Definition resolve (key : string) (cfg : config) (series_dict : dict) : IO W dict := λ w,
  match src cfg with
  | Files files =>
    match try_files key (col cfg) files series_dict w with
    | (Raise e, w1) => (Raise e, w1)
    | (Ok sd, w1) =>
      if negb (dict_mem sd key) && required cfg
      then (Raise (FileNotFoundError ("找不到 " +:+ key +:+ " 的數據檔案")), w1)
      else (Ok sd, w1)
    end
  | File file =>
    match _load_series (path_join RAW_DIR file) (Some (col cfg)) w with
    | (Ok s, w1) => (Ok (dict_set series_dict key s), w1)
    | (Raise e, w1) =>
      if is_FileNotFoundError e then
        if required cfg then (Raise e, w1) else (Ok series_dict, w1)
      else (Raise e, w1)
    end
  end.

Fixpoint load_all (sources : list (string * config)) (series_dict : dict) (w : W)
    : result dict * W :=
  match sources with
  | [] => (Ok series_dict, w)
  | (key, cfg) :: rest =>
    match resolve key cfg series_dict w with
    | (Ok sd, w1) => load_all rest sd w1
    | (Raise e, w1) => (Raise e, w1)
    end
  end.

(* ---------------------------------------------------------------- *)
(** *** Main workflow *)

(** [df.to_csv(out_path, index_label="date")] *)
Variable to_csv : LabeledFrame → Path → IO W unit.

(** [main]: its handler logs and re-raises, so the outcome of the first
    failing step is the outcome of [main]. *)
Definition main (w : W) : (list LogRecord * result unit) * W :=
  match load_all data_sources [] w with
  | (Raise e, w1) => (([], Raise e), w1)
  | (Ok series_dict, w1) =>
    match process (dict_values series_dict) with
    | (log, Raise e) => ((log, Raise e), w1)
    | (log, Ok df) =>
      match to_csv df (path_join PROCESSED_DIR "signals.csv") w1 with
      | (Raise e, w2) => ((log, Raise e), w2)
      | (Ok _, w2) => ((log, Ok tt), w2)
      end
    end
  end.

End World.

(* ------------------------------------------------------------------ *)
(** ** Observing the calls of a wrapped function *)

(** [traced func] behaves as [func] and records, next to the world, the
    outcome of every call made so far.  Sleeping leaves the record alone. *)
Definition traced {W A : Type} (func : IO W A) : IO (W * list (result A)) A := λ st,
  let '(r, w') := func st.1 in (r, (w', st.2 ++ [r])).

Definition elapse_traced {W A : Type} (elapse : Z → W → W)
    : Z → W * list (result A) → W * list (result A) :=
  λ secs st, (elapse secs st.1, st.2).

(** A failed call that [except Exception] catches. *)
Definition caught {A : Type} (o : result A) : Prop :=
  ∃ e, o = Raise e ∧ is_Exception e = true.

(** What the loop of the wrapper, entered with [n] attempts left, adds to
    the record of calls, with its outcome: no call and None when no attempt
    is left; otherwise some caught failures and one last call, which either
    succeeds, or fails for good, or fails before a sleep that is refused. *)
Inductive loop_run {A : Type} (delay : Z) (n : nat)
    : list (result A) → result (option A) → Prop :=
| run_none :
    n = 0%nat → loop_run delay n [] (Ok None)
| run_ok fails v :
    Forall caught fails → (length fails < n)%nat →
    loop_run delay n (fails ++ [Ok v]) (Ok (Some v))
| run_raise fails e :
    Forall caught fails → (length fails < n)%nat →
    is_Exception e = false ∨ S (length fails) = n →
    loop_run delay n (fails ++ [Raise e]) (Raise e)
| run_sleep fails e :
    Forall caught fails → (S (length fails) < n)%nat →
    is_Exception e = true → delay < 0 →
    loop_run delay n (fails ++ [Raise e])
      (Raise (ValueError "sleep length must be non-negative")).

(** The warning about missing values, as [_validate_data] logs it first. *)
Definition missing_log (df : DataFrame) : list LogRecord :=
  if existsb (λ kv, negb (kv.2 =? 0)%nat) (isnull_sum df)
  then [(WARNING, MissingValues (filter (λ kv, (0 < kv.2)%nat) (isnull_sum df)))]
  else [].

(** A row breaks a range when its volatility is below 0 or its fear value
    is outside [0, 100]. *)
Definition range_violation (df : DataFrame) (r : Timestamp * list float) : Prop :=
  Flt (cell df "vix" r) (of_Z 0) ∨
  Flt (cell df "cnn_fg" r) (of_Z 0) ∨
  Flt (of_Z 100) (cell df "cnn_fg" r).


(* ------------------------------------------------------------------ *)
(** ** Small worlds to run the code in *)

Module Example.

(** A world that counts the calls made: [flaky n] fails its first [n]
    calls and then returns the number of the call. *)
Definition flaky (n : nat) : IO nat Z := λ calls,
  (if (calls <? n)%nat then Raise (OtherError "transient") else Ok (Z.of_nat calls),
   S calls).

Definition no_elapse {W : Type} : Z → W → W := λ _ w, w.

(** A directory that does not change: each file name with what reading it
    gives. *)
Inductive file : Type :=
| Csv (df : DataFrame)
| Locked
| Garbled.

Definition FS : Type := list (string * file).

Fixpoint fs_lookup (fs : FS) (nm : string) : option file :=
  match fs with
  | [] => None
  | (n, f) :: rest => if String.eqb n nm then Some f else fs_lookup rest nm
  end.

Definition fs_exists (p : Path) (fs : FS) : bool :=
  match fs_lookup fs (name p) with Some _ => true | None => false end.

Definition fs_read_csv (p : Path) : IO FS DataFrame := λ fs,
  match fs_lookup fs (name p) with
  | Some (Csv df) => (Ok df, fs)
  | Some Locked => (Raise (PermissionError (path_str p)), fs)
  | Some Garbled => (Raise (OtherError "ParserError"), fs)
  | None => (Raise (FileNotFoundError (path_str p)), fs)
  end.

Definition day (n : Z) : Timestamp := n * ns_per_day.

Definition one_column (c : string) (its : list (Z * Z)) : DataFrame :=
  {| columns := [c]; rows := (λ kv, (day kv.1, [of_Z kv.2])) <$> its |}.

Definition two_columns : DataFrame :=
  {| columns := ["value"; "rating"]; rows := [(day 1, [of_Z 15; of_Z 1])] |}.

Definition series (c : string) (its : list (Z * Z)) : Series :=
  {| sname := c; items := (λ kv, (day kv.1, of_Z kv.2)) <$> its |}.

End Example.

(* ------------------------------------------------------------------ *)
(** ** Further definitions *)

Global Instance Q_eq_dec : EqDecision Q.
Proof. solve_decision. Defined.

Global Instance float_eq_dec : EqDecision float.
Proof. solve_decision. Defined.

(** A HOLD that some label other than HOLD follows, later in the
    sequence. *)
Definition closed_run (sigs : list signal) : Prop :=
  ∃ pre post, sigs = pre ++ HOLD :: post ∧ Exists (λ s, s ≠ HOLD) post.

(** A world with a clock that adds up the seconds slept: sleeping advances
    the clock, a call of [func] leaves it alone. *)
Definition elapse_clock {W : Type} (elapse : Z → W → W) : Z → W * Z → W * Z :=
  λ secs st, (elapse secs st.1, st.2 + secs).

Definition unclocked {W A : Type} (func : IO W A) : IO (W * Z) A := λ st,
  let '(r, w') := func st.1 in (r, (w', st.2)).

(** A world that counts the calls of [read_csv]: a read adds one, looking
    for the file and sleeping add nothing. *)
Definition counting_read {W : Type} (read_csv : Path → IO W DataFrame)
    : Path → IO (W * nat) DataFrame := λ path st,
  let '(r, w') := read_csv path st.1 in (r, (w', S st.2)).

Definition counting_exists {W : Type} (path_exists : Path → W → bool)
    : Path → W * nat → bool := λ path st, path_exists path st.1.

Definition counting_elapse {W : Type} (elapse : Z → W → W) : Z → W * nat → W * nat :=
  λ secs st, (elapse secs st.1, st.2).

(* ------------------------------------------------------------------ *)
(** ** Sequencing computations in a world *)

Definition ret {W A : Type} (a : A) : IO W A := λ w, (Ok a, w).

Definition raise {W A : Type} (e : exn) : IO W A := λ w, (Raise e, w).

Definition bind {W A B : Type} (m : IO W A) (k : A → IO W B) : IO W B := λ w,
  match m w with
  | (Ok a, w1) => k a w1
  | (Raise e, w1) => (Raise e, w1)
  end.

(** [try: m except Exception as e: h e] *)
Definition catch_Exception {W A : Type} (m : IO W A) (h : exn → IO W A) : IO W A := λ w,
  match m w with
  | (Ok a, w1) => (Ok a, w1)
  | (Raise e, w1) => if is_Exception e then h e w1 else (Raise e, w1)
  end.

Declare Scope io_scope.
Delimit Scope io_scope with io.
Notation "x <~ m ;; k" := (bind m (λ x, k))
  (at level 100, m at next level, right associativity) : io_scope.

(* ------------------------------------------------------------------ *)
(** ** The fetcher (data_fatcher.py) *)

Module DataFetcher.

Section Fetcher.

Context {W : Type}.
Variable elapse : Z → W → W.

(** [RAW_DIR]: the directory [data/raw] next to the module file. *)
Variable RAW_DIR : string.

(** [series.to_csv(path, header=True)] *)
Variable to_csv : Series → Path → IO W unit.

(** The three fetchers, decorated as they are, talk to the network; they
    enter as operations of the world that return a series or raise. *)
Variable fetch_yfinance_series : string → IO W (option Series).
Variable fetch_alternative_fear_greed : IO W (option Series).
Variable fetch_cnn_fear_greed : IO W (option Series).

(** [series.to_csv(path, header=True)] on what a fetcher returned: None has
    no such method. *)
Definition series_to_csv (series : option Series) (path : Path) : IO W unit := λ w,
  match series with
  | Some s => to_csv s path w
  | None =>
    (Raise (OtherError "AttributeError: 'NoneType' object has no attribute 'to_csv'"), w)
  end.

(** The undecorated [save_series]: a PermissionError of the first write is
    answered by a sleep of one second and a second write, whose failure is
    not handled; any other Exception is logged and raised again. *)
Definition save_series_body (series : option Series) (filename : string) : IO W Path := λ w,
  let path := path_join RAW_DIR filename in
  match series_to_csv series path w with
  | (Ok _, w1) => (Ok path, w1)
  | (Raise e, w1) =>
    if is_PermissionError e then
      match time_sleep elapse 1 w1 with
      | (Ok _, w2) =>
        match series_to_csv series path w2 with
        | (Ok _, w3) => (Ok path, w3)
        | (Raise e', w3) => (Raise e', w3)
        end
      | (Raise e', w2) => (Raise e', w2)
      end
    else (Raise e, w1)
  end.

(** [@retry_on_error(max_retries=3, delay=1)] *)
Definition save_series (series : option Series) (filename : string) : IO W (option Path) :=
  retry_on_error elapse 3 1 (save_series_body series filename).

(** [raise SystemExit(1)]: SystemExit derives from BaseException only. *)
Definition SystemExit1 : exn := BaseError "SystemExit: 1".

Local Open Scope io_scope.

(** Step 3 of [main]: Alternative.me first, CNN when that fails, and on
    with the price data alone when CNN fails too. *)
Definition fetch_sentiment : IO W unit :=
  catch_Exception
    (cnn <~ fetch_alternative_fear_greed ;;
     cnn_path <~ save_series cnn "fear_greed_historical.csv" ;;
     ret tt)
    (λ _,
       catch_Exception
         (cnn <~ fetch_cnn_fear_greed ;;
          cnn_path <~ save_series cnn "cnn_fear_greed_current.csv" ;;
          ret tt)
         (λ _, ret tt)).

Definition main : IO W unit :=
  catch_Exception
    (vix <~ fetch_yfinance_series "^VIX" ;;
     spy <~ fetch_yfinance_series "SPY" ;;
     vix_path <~ save_series vix "vix.csv" ;;
     spy_path <~ save_series spy "spy.csv" ;;
     fetch_sentiment)
    (λ _, raise SystemExit1).

End Fetcher.

End DataFetcher.

(* ------------------------------------------------------------------ *)
(** ** The records of [fetch_alternative_fear_greed] (data_fatcher.py)

    The loop that turns the entries of the Alternative.me response into
    [records], and the test that follows it.  An entry is a JSON object
    whose values are strings, which is how the API sends [timestamp] and
    [value]; the request before the loop and the conversion of [records]
    into a sorted series after it are not modelled. *)

From Stdlib Require Import Ascii.

Module AlternativeMe.

(** [str.split(sep)] for a separator of one character: the pieces between
    the separators, empty pieces included. *)
Fixpoint split_on (sep : ascii) (s : string) : list string :=
  match s with
  | EmptyString => [EmptyString]
  | String c rest =>
    if Ascii.eqb c sep then EmptyString :: split_on sep rest
    else
      match split_on sep rest with
      | [] => [String c EmptyString]
      | piece :: pieces => String c piece :: pieces
      end
  end.

(** [datetime.date] *)
Record date : Type := { year : Z; month : Z; day : Z }.

Global Instance date_eq_dec : EqDecision date.
Proof. solve_decision. Defined.

Definition is_leap (y : Z) : bool :=
  ((y mod 4 =? 0) && negb (y mod 100 =? 0)) || (y mod 400 =? 0).

Definition days_in_month (y m : Z) : Z :=
  if (m =? 2) then (if is_leap y then 29 else 28)
  else if (m =? 4) || (m =? 6) || (m =? 9) || (m =? 11) then 30
  else 31.

(** The arguments of [dt.date] are converted to C ints first. *)
Definition fits_c_int (z : Z) : bool := (- 2 ^ 31 <=? z) && (z <=? 2 ^ 31 - 1).

Definition in_calendar (y m d : Z) : bool :=
  (1 <=? y) && (y <=? 9999) && (1 <=? m) && (m <=? 12) &&
  (1 <=? d) && (d <=? days_in_month y m).

(** [dt.date(year, month, day)]: OverflowError for an argument that is no C
    int, ValueError for a date that is not in the calendar. *)
Inductive date_outcome : Type :=
| DateOk (d : date)
| DateValueError
| DateOverflowError.

Definition dt_date (y m d : Z) : date_outcome :=
  if negb (fits_c_int y && fits_c_int m && fits_c_int d) then DateOverflowError
  else if in_calendar y m d then DateOk {| year := y; month := m; day := d |}
  else DateValueError.

(** A date of the calendar: what [dt.date] accepts. *)
Definition valid_date (d : date) : Prop :=
  1 ≤ year d ≤ 9999 ∧ 1 ≤ month d ≤ 12 ∧ 1 ≤ day d ≤ days_in_month (year d) (month d).

(** A JSON object with string values; [item_get] is [item[key]], None for
    KeyError. *)
Definition item : Type := list (string * string).

Fixpoint item_get (it : item) (key : string) : option string :=
  match it with
  | [] => None
  | (k, v) :: rest => if String.eqb k key then Some v else item_get rest key
  end.

(** [records[date] = value] on a dict, which keeps the place of a key it
    already has. *)
Fixpoint records_set (records : list (date * Z)) (d : date) (v : Z) : list (date * Z) :=
  match records with
  | [] => [(d, v)]
  | (d', v') :: rest =>
    if bool_decide (d' = d) then (d, v) :: rest else (d', v') :: records_set rest d v
  end.

(** What the body of the loop does with one entry: it stores a record, or
    skips the entry after a ValueError or KeyError, or lets another
    exception out. *)
Inductive outcome : Type :=
| Parsed (d : date) (v : Z)
| Skipped
| Aborted (e : exn).

(** OverflowError is not among the exceptions of this development; it is an
    Exception, carried as [OtherError]. *)
Definition OverflowError : exn := OtherError "OverflowError".

Section Records.

(** [int(s)] on a str: the integer, or None for ValueError. *)
Variable py_int : string → option Z.

Definition parse_item (it : item) : outcome :=
  match item_get it "timestamp" with
  | None => Skipped
  | Some date_str =>
    match py_int <$> split_on "-"%char date_str with
    | [Some d; Some m; Some y] =>
      match dt_date y m d with
      | DateOverflowError => Aborted OverflowError
      | DateValueError => Skipped
      | DateOk date =>
        match item_get it "value" with
        | None => Skipped
        | Some value =>
          match py_int value with
          | Some v => Parsed date v
          | None => Skipped
          end
        end
      end
    | _ => Skipped
    end
  end.

(** [for item in data["data"]: ...] from the records gathered so far. *)
Fixpoint records_loop (data : list item) (records : list (date * Z))
    : result (list (date * Z)) :=
  match data with
  | [] => Ok records
  | it :: rest =>
    match parse_item it with
    | Parsed d v => records_loop rest (records_set records d v)
    | Skipped => records_loop rest records
    | Aborted e => Raise e
    end
  end.

(** [d] with the value [v] is what the last entry of [data] that gives a
    record for [d] gives. *)
Definition last_parsed (data : list item) (d : date) (v : Z) : Prop :=
  ∃ pre it post, data = pre ++ it :: post ∧ parse_item it = Parsed d v ∧
    ∀ it' v', it' ∈ post → parse_item it' ≠ Parsed d v'.

Definition never_parsed (data : list item) (d : date) : Prop :=
  ∀ it v', it ∈ data → parse_item it ≠ Parsed d v'.

(** The loop from [records = {}], then [if not records: raise ValueError]. *)
Definition collect_records (data : list item) : result (list (date * Z)) :=
  match records_loop data [] with
  | Ok [] => Raise (ValueError "No valid data records found")
  | Ok records => Ok records
  | Raise e => Raise e
  end.

End Records.

(** An [int] for the examples: a run of ASCII digits, read in base 10. *)
Definition digit_of (c : ascii) : option Z :=
  let n := Z.of_nat (nat_of_ascii c) in
  if (48 <=? n) && (n <=? 57) then Some (n - 48) else None.

Fixpoint digits_value (s : string) (acc : Z) : option Z :=
  match s with
  | EmptyString => Some acc
  | String c rest =>
    match digit_of c with
    | Some n => digits_value rest (10 * acc + n)
    | None => None
    end
  end.

Definition int_of_digits (s : string) : option Z :=
  match s with
  | EmptyString => None
  | _ => digits_value s 0
  end.

End AlternativeMe.

(* ------------------------------------------------------------------ *)
(** ** Facts about float comparison *)

Lemma fle_Fle x y : fle x y = true ↔ Fle x y.
Proof.
  split.
  - destruct x, y; simpl; intros H; try discriminate; try (constructor; congruence).
    constructor. by apply Qle_bool_iff.
  - intros H. destruct H as [y Hy|x Hx|a b Hab]; simpl.
    + by destruct y.
    + by destruct x.
    + by apply Qle_bool_iff.
Qed.

Lemma flt_Flt x y : flt x y = true ↔ Flt x y.
Proof.
  split.
  - destruct x, y; simpl; intros H; try discriminate; try constructor.
    apply Qnot_le_lt. intros Hle. apply Qle_bool_iff in Hle.
    rewrite Hle in H. discriminate.
  - intros H. destruct H as [b| |a|a b Hab]; simpl; try reflexivity.
    destruct (Qle_bool b a) eqn:E; [|reflexivity].
    apply Qle_bool_iff in E. exfalso. by apply (Qlt_not_le a b).
Qed.

Lemma fle_nan_l y : fle NaN y = false.
Proof. reflexivity. Qed.

Lemma fle_nan_r x : fle x NaN = false.
Proof. by destruct x. Qed.

Lemma flt_nan_l y : flt NaN y = false.
Proof. reflexivity. Qed.

Lemma flt_nan_r x : flt x NaN = false.
Proof. by destruct x. Qed.

Lemma isna_true x : isna x = true ↔ x = NaN.
Proof. destruct x; simpl; split; congruence. Qed.

Lemma Fle_dec_false x y : fle x y = false ↔ ¬ Fle x y.
Proof.
  rewrite <- fle_Fle. destruct (fle x y); split; congruence.
Qed.

Lemma Flt_dec_false x y : flt x y = false ↔ ¬ Flt x y.
Proof.
  rewrite <- flt_Flt. destruct (flt x y); split; congruence.
Qed.

Lemma isna_false x : isna x = false ↔ x ≠ NaN.
Proof. destruct x; simpl; split; congruence. Qed.

(* ------------------------------------------------------------------ *)
(** ** The signal rule *)

Import SignalGenerator.

(** The outcome of [generate_signal] depends on the row through its
    [cnn_fg] and [vix] cells only. *)
Lemma generate_signal_cells g row fg vix :
  getitem row "cnn_fg" = Ok fg →
  getitem row "vix" = Ok vix →
  generate_signal g row =
    if isna fg || isna vix then Ok HOLD
    else if fle fg (buy_fg_threshold g) && fle (buy_vix_threshold g) vix then Ok BUY
    else if fle (sell_fg_threshold g) fg && fle vix (sell_vix_threshold g) then Ok SELL
    else Ok HOLD.
Proof. intros Hfg Hvix. unfold generate_signal, fge. by rewrite Hfg, Hvix. Qed.

Ltac float_order :=
  repeat match goal with
  | H : _ ∧ _ |- _ => destruct H
  | H : Fle _ _ |- _ => apply fle_Fle in H
  | H : ¬ Fle _ _ |- _ => apply Fle_dec_false in H
  | H : _ ≠ NaN |- _ => apply isna_false in H
  | H : _ = NaN |- _ => apply isna_true in H
  end.

(** C1.  For a row of distinct labels with a fear cell [fg] and a
    volatility cell [vix]: HOLD when either is missing; otherwise BUY when fg <= the buy fear
    threshold and vix >= the buy volatility threshold; otherwise SELL when
    fg >= the sell fear threshold and vix <= the sell volatility threshold;
    otherwise HOLD.  The other cells of the row do not matter, the default
    thresholds are 20, 30, 80 and 15, and the bounds are inclusive: fear 20
    with volatility 30 is BUY, fear 21 with volatility 30 is HOLD. *)
Theorem generate_signal_rule (g : SignalGenerator.t) (row : Row) (fg vix : float)
    (Hlabels : NoDup row.*1)
    (Hfg : getitem row "cnn_fg" = Ok fg) (Hvix : getitem row "vix" = Ok vix) :
  let buy := Fle fg (buy_fg_threshold g) ∧ Fle (buy_vix_threshold g) vix in
  let sell := Fle (sell_fg_threshold g) fg ∧ Fle vix (sell_vix_threshold g) in
  (fg = NaN ∨ vix = NaN → generate_signal g row = Ok HOLD) ∧
  (fg ≠ NaN → vix ≠ NaN → buy → generate_signal g row = Ok BUY) ∧
  (fg ≠ NaN → vix ≠ NaN → ¬ buy → sell → generate_signal g row = Ok SELL) ∧
  (fg ≠ NaN → vix ≠ NaN → ¬ buy → ¬ sell → generate_signal g row = Ok HOLD) ∧
  (∀ row', NoDup row'.*1 →
           getitem row' "cnn_fg" = Ok fg → getitem row' "vix" = Ok vix →
           generate_signal g row' = generate_signal g row) ∧
  (buy_fg_threshold default = of_Z 20 ∧ buy_vix_threshold default = of_Z 30 ∧
   sell_fg_threshold default = of_Z 80 ∧ sell_vix_threshold default = of_Z 15) ∧
  (∀ spy, generate_signal default
            [("spy_price", spy); ("vix", of_Z 30); ("cnn_fg", of_Z 20)] = Ok BUY) ∧
  (∀ spy, generate_signal default
            [("spy_price", spy); ("vix", of_Z 30); ("cnn_fg", of_Z 21)] = Ok HOLD).
Proof.
  intros buy sell. subst buy sell.
  rewrite (generate_signal_cells g row fg vix Hfg Hvix).
  repeat split; try reflexivity.
  - intros [->| ->]; [reflexivity|]. by rewrite orb_true_r.
  - intros Hf Hv Hb. float_order. by rewrite Hf, Hv, H, H0.
  - intros Hf Hv Hb Hs. float_order. rewrite Hf, Hv, H, H0. simpl.
    destruct (fle fg (buy_fg_threshold g) && fle (buy_vix_threshold g) vix) eqn:E;
      [|reflexivity].
    apply andb_true_iff in E as [E1 E2]. exfalso. apply Hb.
    split; by apply fle_Fle.
  - intros Hf Hv Hb Hs. float_order. rewrite Hf, Hv. simpl.
    destruct (fle fg (buy_fg_threshold g) && fle (buy_vix_threshold g) vix) eqn:E.
    { apply andb_true_iff in E as [E1 E2]. exfalso. apply Hb.
      split; by apply fle_Fle. }
    destruct (fle (sell_fg_threshold g) fg && fle vix (sell_vix_threshold g)) eqn:E';
      [|reflexivity].
    apply andb_true_iff in E' as [E1 E2]. exfalso. apply Hs.
    split; by apply fle_Fle.
  - intros row' _ Hfg' Hvix'.
    by rewrite (generate_signal_cells g row' fg vix Hfg' Hvix').
Qed.

(** The rule at a row of extreme fear: fear 15 with volatility 32 is BUY. *)
Lemma generate_signal_rule_witness :
  generate_signal default
    [("spy_price", of_Z 470); ("vix", of_Z 32); ("cnn_fg", of_Z 15)] = Ok BUY.
Proof.
  assert (Hlabels : NoDup ["spy_price"; "vix"; "cnn_fg"]).
  { apply (bool_decide_unpack _). vm_compute. reflexivity. }
  pose proof (generate_signal_rule default
    [("spy_price", of_Z 470); ("vix", of_Z 32); ("cnn_fg", of_Z 15)]
    (of_Z 15) (of_Z 32) Hlabels eq_refl eq_refl) as (_ & Hbuy & _).
  apply Hbuy; [discriminate | discriminate |].
  split; apply fle_Fle; reflexivity.
Defined.

(** C3, as the code has it.  The constructor checks nothing: for all four
    bounds it succeeds and the generator it builds holds them unchanged. *)
Theorem init_accepts_all (buy_fg buy_vix sell_fg sell_vix : float) :
  ∃ g, SignalGenerator.__init__ buy_fg buy_vix sell_fg sell_vix = Ok g ∧
       buy_fg_threshold g = buy_fg ∧ buy_vix_threshold g = buy_vix ∧
       sell_fg_threshold g = sell_fg ∧ sell_vix_threshold g = sell_vix.
Proof. eexists. split; [reflexivity|]. by repeat split. Qed.

(** C3 fails on the code: the bounds 80, 15, 20, 30 break the invariant on
    both sides, yet the constructor does not raise, and the generator labels
    a calm row (fear 50, volatility 20) BUY. *)
Lemma init_accepts_inverted_thresholds :
  ¬ threshold_invariant (of_Z 80) (of_Z 15) (of_Z 20) (of_Z 30) ∧
  (∀ e, SignalGenerator.__init__ (of_Z 80) (of_Z 15) (of_Z 20) (of_Z 30) ≠ Raise e) ∧
  (∃ g, SignalGenerator.__init__ (of_Z 80) (of_Z 15) (of_Z 20) (of_Z 30) = Ok g ∧
        generate_signal g [("vix", of_Z 20); ("cnn_fg", of_Z 50)] = Ok BUY).
Proof.
  split; [|split].
  - intros [H _]. apply flt_Flt in H. discriminate.
  - intros e. discriminate.
  - eexists. split; reflexivity.
Qed.

(* ------------------------------------------------------------------ *)
(** ** The retry decorator *)


Lemma loop_run_cons {A : Type} delay n (o : result A) tr r :
  caught o → n ≠ 0%nat → loop_run delay n tr r → loop_run delay (S n) (o :: tr) r.
Proof.
  intros Ho Hn Hrun.
  destruct Hrun as [Hz|fails v Hf Hl|fails e Hf Hl He|fails e Hf Hl He Hd].
  - done.
  - apply (run_ok delay (S n) (o :: fails) v); [by constructor | simpl; lia].
  - apply (run_raise delay (S n) (o :: fails) e); [by constructor | simpl; lia |].
    destruct He as [He|He]; [by left | right; simpl; lia].
  - apply (run_sleep delay (S n) (o :: fails) e); [by constructor | simpl; lia | done | done].
Qed.

Section RetryFacts.

Context {W A : Type}.
Variable elapse : Z → W → W.
Variables (max_retries delay : Z).
Variable func : IO W A.

Lemma seqZ_S k (n : nat) : seqZ k (Z.of_nat (S n)) = k :: seqZ (k + 1) (Z.of_nat n).
Proof.
  rewrite seqZ_cons by lia. f_equal. f_equal; lia.
Qed.

(** The loop over the attempts [k, k+1, ..., max_retries - 1], run on the
    traced function from a record [tr0], and on the function itself. *)
Lemma wrapper_loop_traced (n : nat) : ∀ k w tr0,
  k + Z.of_nat n = max_retries →
  ∃ r w' tr1,
    wrapper_loop (elapse_traced elapse) max_retries delay (traced func)
      (seqZ k (Z.of_nat n)) (w, tr0) = (r, (w', tr0 ++ tr1)) ∧
    wrapper_loop elapse max_retries delay func (seqZ k (Z.of_nat n)) w = (r, w') ∧
    loop_run delay n tr1 r.
Proof.
  induction n as [|n IH]; intros k w tr0 Hk.
  - exists (Ok None), w, []. change (seqZ k (Z.of_nat 0)) with (@nil Z). simpl.
    rewrite app_nil_r. split; [done|]. split; [done|]. by constructor.
  - rewrite seqZ_S. simpl. unfold traced at 1. simpl.
    destruct (func w) as [[v|e] w1] eqn:Hf.
    { exists (Ok (Some v)), w1, [Ok v]. split; [done|]. split; [done|].
      apply (run_ok delay (S n) [] v); [constructor | simpl; lia]. }
    destruct (is_Exception e) eqn:He.
    2:{ exists (Raise e), w1, [Raise e]. split; [done|]. split; [done|].
        apply (run_raise delay (S n) [] e); [constructor | simpl; lia | by left]. }
    destruct (k =? max_retries - 1) eqn:Hlast.
    { exists (Raise e), w1, [Raise e]. split; [done|]. split; [done|].
      apply Z.eqb_eq in Hlast.
      apply (run_raise delay (S n) [] e); [constructor | simpl; lia | right; simpl; lia]. }
    apply Z.eqb_neq in Hlast.
    unfold time_sleep. unfold elapse_traced at 1. simpl.
    destruct (delay <? 0) eqn:Hd.
    { eexists _, w1, [Raise e]. split; [done|]. split; [done|].
      apply Z.ltb_lt in Hd.
      apply (run_sleep delay (S n) [] e); [constructor | simpl; lia | done | done]. }
    destruct (IH (k + 1) (elapse delay w1) (tr0 ++ [Raise e]))
      as (r & w' & tr1 & Ht & Hu & Hrun); [lia|].
    exists r, w', (Raise e :: tr1). split; [|split; [done|]].
    { rewrite Ht. by rewrite <- app_assoc. }
    apply loop_run_cons; [by exists e | lia | done].
Qed.

(** The same for the whole wrapper. *)
Lemma retry_on_error_traced w :
  0 ≤ max_retries →
  ∃ r w' tr,
    retry_on_error (elapse_traced elapse) max_retries delay (traced func) (w, [])
      = (r, (w', tr)) ∧
    retry_on_error elapse max_retries delay func w = (r, w') ∧
    loop_run delay (Z.to_nat max_retries) tr r.
Proof.
  intros Hmax.
  destruct (wrapper_loop_traced (Z.to_nat max_retries) 0 w []) as
    (r & w' & tr1 & Ht & Hu & Hrun); [lia|].
  rewrite Z2Nat.id in Ht, Hu by done.
  by exists r, w', tr1.
Qed.

End RetryFacts.






(** Without an attempt to make, the wrapper does return None. *)
Lemma retry_none_without_attempts {W A : Type} (elapse : Z → W → W)
    (max_retries delay : Z) (func : IO W A) (w : W) :
  max_retries ≤ 0 → retry_on_error elapse max_retries delay func w = (Ok None, w).
Proof.
  intros Hmax. unfold retry_on_error, range.
  rewrite (seqZ_nil 0 max_retries) by lia. reflexivity.
Qed.

(* ------------------------------------------------------------------ *)
(** ** The HOLD-run statistics *)

(** The runs of the specification are the periods the loop has appended
    together with the run it is still counting when the sequence ends. *)
Lemma hold_loop_spec sigs : ∀ hold_periods cur,
  hold_periods ++ spec_hold_runs_from sigs cur =
  (hold_loop sigs hold_periods cur).1 ++
  (if 0 <? (hold_loop sigs hold_periods cur).2
   then [(hold_loop sigs hold_periods cur).2] else []).
Proof.
  induction sigs as [|s sigs IH]; intros hp cur; simpl; [done|].
  destruct s; simpl; rewrite <- IH; try done.
  - by destruct (0 <? cur); rewrite <- ?app_assoc.
  - by destruct (0 <? cur); rewrite <- ?app_assoc.
Qed.

Lemma hold_loop_app l1 l2 : ∀ hold_periods cur,
  hold_loop (l1 ++ l2) hold_periods cur =
  hold_loop l2 (hold_loop l1 hold_periods cur).1 (hold_loop l1 hold_periods cur).2.
Proof.
  induction l1 as [|s l1 IH]; intros hp cur; simpl; [done|].
  by destruct (bool_decide (s = HOLD)); rewrite IH.
Qed.

Lemma hold_loop_current_nonneg sigs : ∀ hold_periods cur,
  0 ≤ cur → 0 ≤ (hold_loop sigs hold_periods cur).2.
Proof.
  induction sigs as [|s sigs IH]; intros hp cur Hcur; simpl; [done|].
  destruct (bool_decide (s = HOLD)); apply IH; lia.
Qed.

(** On a sequence that a label other than HOLD closes, the loop computes the
    runs of the specification. *)
Lemma hold_periods_closed sigs s :
  s ≠ HOLD → hold_periods_of (sigs ++ [s]) = spec_hold_runs (sigs ++ [s]).
Proof.
  intros Hs. unfold hold_periods_of, spec_hold_runs.
  pose proof (hold_loop_spec (sigs ++ [s]) [] 0) as Hspec. simpl in Hspec.
  rewrite Hspec. rewrite hold_loop_app. simpl.
  rewrite bool_decide_eq_false_2 by done. simpl. by rewrite app_nil_r.
Qed.

(** On a sequence that ends with HOLD, the loop leaves the last run out. *)
Lemma hold_periods_open sigs :
  ∃ run, 0 < run ∧
    spec_hold_runs (sigs ++ [HOLD]) = hold_periods_of (sigs ++ [HOLD]) ++ [run].
Proof.
  unfold hold_periods_of, spec_hold_runs.
  pose proof (hold_loop_spec (sigs ++ [HOLD]) [] 0) as Hspec. simpl in Hspec.
  rewrite Hspec. rewrite hold_loop_app. simpl.
  pose proof (hold_loop_current_nonneg sigs [] 0 ltac:(lia)) as Hc.
  exists ((hold_loop sigs [] 0).2 + 1). split; [lia|].
  destruct (0 <? (hold_loop sigs [] 0).2 + 1) eqn:E; [done|].
  apply Z.ltb_ge in E. lia.
Qed.

(** C2, on the example sequence of the specification.  There the runs are
    [2, 1, 3] with mean 2; the loop of [_print_signal_stats] never appends
    the run that is open when the sequence ends, so it computes the periods
    [2, 1] and logs their mean 3/2. *)
Theorem hold_periods_miss_final_run :
  let sigs := [HOLD; HOLD; BUY; HOLD; SELL; HOLD; HOLD; HOLD] in
  spec_hold_runs sigs = [2; 1; 3] ∧
  (spec_mean (spec_hold_runs sigs) == 2)%Q ∧
  hold_periods_of sigs = [2; 1] ∧
  avg_hold (hold_periods_of sigs) = Some (3 # 2)%Q ∧
  (∀ df, _print_signal_stats {| frame := df; signals := sigs |}
         = [(INFO, SignalCounts); (INFO, AverageHold (3 # 2)%Q)]) ∧
  avg_hold (hold_periods_of [BUY]) = None.
Proof. repeat split. Qed.

(* ------------------------------------------------------------------ *)
(** ** Source resolution *)

Lemma dict_mem_set d k v : dict_mem (dict_set d k v) k = true.
Proof.
  induction d as [|[k' v'] d IH]; simpl.
  - by rewrite String.eqb_refl.
  - destruct (String.eqb k' k) eqn:E; simpl.
    + by rewrite String.eqb_refl.
    + rewrite E. exact IH.
Qed.

Section ResolverFacts.

Context {W : Type}.
Variable elapse : Z → W → W.
Variable path_exists : Path → W → bool.
Variable read_csv : Path → IO W DataFrame.

Local Abbreviation load file c :=
  (_load_series elapse path_exists read_csv (path_join RAW_DIR file) (Some c)).

(** The decorated loader makes at least one attempt, so it never returns
    None. *)
Lemma _load_series_not_none path value_col w w' :
  _load_series elapse path_exists read_csv path value_col w ≠ (Ok None, w').
Proof.
  unfold _load_series. intros Heq.
  destruct (retry_on_error_traced elapse 3 1
    (_load_series_body elapse path_exists read_csv path value_col) w)
    as (r & w1 & tr & _ & Hu & Hrun); [lia|].
  rewrite Heq in Hu. injection Hu as <- <-.
  inversion Hrun; simplify_eq.
Qed.

(** The three ways the loop over the candidates ends: at the first
    candidate that loads, all before it missing; at the first candidate
    that fails otherwise, all before it missing; or with every candidate
    missing and [series_dict] as it was. *)
Lemma try_files_cases key c files : ∀ series_dict w,
  (∃ pre file post s w1 w2,
      files = pre ++ file :: post ∧ all_missing elapse path_exists read_csv c pre w w1 ∧
      load file c w1 = (Ok (Some s), w2) ∧
      try_files elapse path_exists read_csv key c files series_dict w
        = (Ok (dict_set series_dict key (Some s)), w2)) ∨
  (∃ pre file post e w1 w2,
      files = pre ++ file :: post ∧ all_missing elapse path_exists read_csv c pre w w1 ∧
      load file c w1 = (Raise e, w2) ∧ is_FileNotFoundError e = false ∧
      try_files elapse path_exists read_csv key c files series_dict w = (Raise e, w2)) ∨
  (∃ w', all_missing elapse path_exists read_csv c files w w' ∧
      try_files elapse path_exists read_csv key c files series_dict w
        = (Ok series_dict, w')).
Proof.
  induction files as [|file files IH]; intros sd w.
  - right. right. exists w. split; [constructor | done].
  - simpl. destruct (load file c w) as [[[s|]|e] w1] eqn:Hload.
    + left. exists [], file, files, s, w, w1. repeat split; [constructor | done].
    + by apply _load_series_not_none in Hload.
    + destruct (is_FileNotFoundError e) eqn:He.
      * destruct e; try discriminate.
        destruct (IH sd w1) as
          [(pre & f & post & s & w2 & w3 & -> & Hpre & Hf & Hres)
          |[(pre & f & post & e & w2 & w3 & -> & Hpre & Hf & He' & Hres)
           |(w' & Hall & Hres)]].
        -- left. exists (file :: pre), f, post, s, w2, w3.
           repeat split; try done. by econstructor.
        -- right. left. exists (file :: pre), f, post, e, w2, w3.
           repeat split; try done. by econstructor.
        -- right. right. exists w'. split; [by econstructor | done].
      * right. left. exists [], file, files, e, w, w1.
        repeat split; [constructor | done | done].
Qed.

End ResolverFacts.

(** C5, as the code has it.  For a dataset with the candidate list [files],
    resolution loads the candidates in order and ends in one of three ways:
    a candidate loads, every candidate before it having failed with
    FileNotFoundError, and its series is stored under the dataset key, the
    later candidates untried; or a candidate fails with an exception of
    another kind, every candidate before it having failed with
    FileNotFoundError, and resolution raises that exception without trying
    the later candidates; or every candidate fails with FileNotFoundError,
    and resolution raises a FileNotFoundError whose message names the
    dataset key alone when the dataset is required and has no entry yet. *)
Theorem resolve_candidates {W : Type} (elapse : Z → W → W)
    (path_exists : Path → W → bool) (read_csv : Path → IO W DataFrame)
    (key c : string) (files : list string) (req : bool) (series_dict : dict) (w : W) :
  let cfg := {| src := Files files; col := c; required := req |} in
  let load file := _load_series elapse path_exists read_csv (path_join RAW_DIR file) (Some c) in
  (∃ pre file post s w1 w2,
      files = pre ++ file :: post ∧ all_missing elapse path_exists read_csv c pre w w1 ∧
      load file w1 = (Ok (Some s), w2) ∧
      resolve elapse path_exists read_csv key cfg series_dict w
        = (Ok (dict_set series_dict key (Some s)), w2)) ∨
  (∃ pre file post e w1 w2,
      files = pre ++ file :: post ∧ all_missing elapse path_exists read_csv c pre w w1 ∧
      load file w1 = (Raise e, w2) ∧ is_FileNotFoundError e = false ∧
      resolve elapse path_exists read_csv key cfg series_dict w = (Raise e, w2)) ∨
  (∃ w', all_missing elapse path_exists read_csv c files w w' ∧
      resolve elapse path_exists read_csv key cfg series_dict w =
        if negb (dict_mem series_dict key) && req
        then (Raise (FileNotFoundError ("找不到 " +:+ key +:+ " 的數據檔案")), w')
        else (Ok series_dict, w')).
Proof.
  intros cfg load. unfold resolve. simpl.
  destruct (try_files_cases elapse path_exists read_csv key c files series_dict w) as
    [(pre & f & post & s & w1 & w2 & Hfiles & Hpre & Hf & Hres)
    |[(pre & f & post & e & w1 & w2 & Hfiles & Hpre & Hf & He & Hres)
     |(w' & Hall & Hres)]]; rewrite Hres.
  - left. exists pre, f, post, s, w1, w2. repeat split; try done.
    by rewrite dict_mem_set.
  - right. left. by exists pre, f, post, e, w1, w2.
  - right. right. by exists w'.
Qed.

(** C5 fails on the code.  The first candidate has two data columns, so its
    load raises ValueError on each of the three attempts; the second
    candidate is a valid file; resolution raises the ValueError instead of
    going on to the second candidate.  And with no candidate on disk, the
    error names the dataset and none of the candidates. *)
Lemma resolve_aborts_on_invalid_candidate :
  let fs := [("fear_greed_historical.csv", Example.Csv Example.two_columns);
             ("cnn_fear_greed_current.csv",
              Example.Csv (Example.one_column "value" [(1, 15)]))] in
  let cfg := {| src := Files ["fear_greed_historical.csv"; "cnn_fear_greed_current.csv"];
                col := "cnn_fg"; required := true |} in
  _load_series Example.no_elapse Example.fs_exists Example.fs_read_csv
    (path_join RAW_DIR "cnn_fear_greed_current.csv") (Some "cnn_fg") fs
    = (Ok (Some (Example.series "cnn_fg" [(1, 15)])), fs) ∧
  resolve Example.no_elapse Example.fs_exists Example.fs_read_csv "cnn_fg" cfg [] fs
    = (Raise (ValueError "Expected exactly 1 data column in fear_greed_historical.csv"), fs) ∧
  resolve Example.no_elapse Example.fs_exists Example.fs_read_csv "cnn_fg" cfg [] []
    = (Raise (FileNotFoundError "找不到 cnn_fg 的數據檔案"), []).
Proof. repeat split. Qed.

(* ------------------------------------------------------------------ *)
(** ** The merged frame *)

Lemma elem_of_intersection l r t : t ∈ intersection l r ↔ t ∈ l ∧ t ∈ r.
Proof.
  unfold intersection. rewrite elem_of_remove_dups, list_elem_of_filter. tauto.
Qed.

Lemma NoDup_intersection l r : NoDup (intersection l r).
Proof. apply NoDup_remove_dups. Qed.

Lemma elem_of_foldl_intersection rest : ∀ acc t,
  t ∈ foldl (λ acc o, intersection acc (index_of o)) acc rest ↔
  t ∈ acc ∧ ∀ s, s ∈ rest → t ∈ index_of s.
Proof.
  induction rest as [|o rest IH]; intros acc t; simpl.
  - split; [|tauto]. intros H. split; [done|]. intros s Hs. by inv Hs.
  - rewrite IH, elem_of_intersection. split.
    + intros [[Ha Ho] Hrest]. split; [done|]. intros s Hs.
      inv Hs; [done | by apply Hrest].
    + intros [Ha Hall]. repeat split; [done | apply Hall; left | ].
      intros s Hs. apply Hall. by right.
Qed.

Lemma NoDup_foldl_intersection rest : ∀ acc,
  NoDup acc → NoDup (foldl (λ acc o, intersection acc (index_of o)) acc rest).
Proof.
  induction rest as [|o rest IH]; intros acc Hacc; simpl; [done|].
  apply IH, NoDup_intersection.
Qed.

(** The combined index holds exactly the labels every series has. *)
Lemma elem_of_combined_index ss t :
  ss ≠ [] → t ∈ combined_index ss ↔ ∀ s, s ∈ ss → t ∈ index_of s.
Proof.
  destruct ss as [|s rest]; [done|]. intros _. simpl.
  rewrite elem_of_foldl_intersection. split.
  - intros [Hs Hrest] s' Hs'. inv Hs'; [done | by apply Hrest].
  - intros Hall. split; [apply Hall; left | intros s' Hs'; apply Hall; by right].
Qed.

Lemma NoDup_combined_index ss :
  Forall (λ s, NoDup (index_of s)) ss → NoDup (combined_index ss).
Proof.
  destruct ss as [|s rest]; [constructor|]. intros Hall. simpl.
  apply NoDup_foldl_intersection. by inv Hall.
Qed.

Lemma map_result_Ok {A B : Type} (f : A → result B) l :
  Forall (λ x, ∃ y, f x = Ok y) l → ∃ ys, map_result f l = Ok ys.
Proof.
  induction 1 as [|x l [y Hy] _ [ys Hys]]; simpl; [by eexists|].
  rewrite Hy, Hys. by eexists.
Qed.

Lemma reindex_NoDup s idx : NoDup (index_of s) → ∃ cells, reindex s idx = Ok cells.
Proof.
  intros Hs. unfold reindex, has_duplicates.
  destruct (bool_decide (index_of s = idx)); [by eexists|].
  rewrite bool_decide_eq_true_2 by done. by eexists.
Qed.

Lemma build_rows_index idx : ∀ cols, (build_rows idx cols).*1 = idx.
Proof.
  induction idx as [|t idx IH]; intros cols; simpl; [done|]. by rewrite IH.
Qed.

Lemma omap_id_Some {A : Type} (l : list A) : omap id (Some <$> l) = l.
Proof. induction l as [|x l IH]; [done|]. csimpl. by rewrite IH. Qed.

(** On series without duplicate labels the inner concat succeeds, and the
    index of its frame is the combined index. *)
Lemma concat_inner_NoDup ss :
  ss ≠ [] → Forall (λ s, NoDup (index_of s)) ss →
  ∃ df, concat_inner (Some <$> ss) = Ok df ∧
        columns df = sname <$> ss ∧ index df = combined_index ss.
Proof.
  intros Hne Hnd. unfold concat_inner. rewrite omap_id_Some.
  destruct ss as [|s rest] eqn:Hss; [done|]. rewrite <- Hss in *.
  destruct (map_result_Ok (λ s, reindex s (combined_index ss)) ss) as [cols Hcols].
  { eapply Forall_impl; [exact Hnd|]. intros x Hx. by apply reindex_NoDup. }
  rewrite Hcols. eexists. split; [done|]. split; [done|].
  unfold index. simpl. apply build_rows_index.
Qed.

Global Instance row_le_trans : Transitive row_le.
Proof. intros a b c. unfold row_le. lia. Qed.

Global Instance row_le_total : Total row_le.
Proof. intros a b. unfold row_le. lia. Qed.

Lemma sort_index_Permutation df : index (sort_index df) ≡ₚ index df.
Proof. unfold index, sort_index. simpl. by rewrite merge_sort_Permutation. Qed.

Lemma sort_index_sorted df : StronglySorted Z.le (index (sort_index df)).
Proof.
  unfold index, sort_index. simpl.
  apply (StronglySorted_fmap fst row_le Z.le); [done|].
  apply StronglySorted_merge_sort; apply _.
Qed.

Lemma combined_index_Permutation ss ss' :
  ss ≠ [] → ss' ≡ₚ ss →
  Forall (λ s, NoDup (index_of s)) ss →
  combined_index ss' ≡ₚ combined_index ss.
Proof.
  intros Hne Hperm Hnd.
  assert (ss' ≠ []) as Hne'.
  { intros ->. by apply Permutation_nil in Hperm. }
  apply NoDup_Permutation.
  - apply NoDup_combined_index. by rewrite Hperm.
  - by apply NoDup_combined_index.
  - intros t. rewrite !elem_of_combined_index by done.
    split; intros H s Hs; apply H; [by rewrite Hperm | by rewrite <- Hperm].
Qed.

(** C4.  For series without duplicate dates, at least one of them: the
    merge succeeds; the dates of the sorted merged frame are exactly the
    dates every series has; they are in ascending order, whatever the order
    of the dates in the inputs; joining the series in another order gives
    the same dates; and intersecting indexes pairwise gives the same set of
    dates however the pairs are formed. *)
Theorem merged_index_sorted_intersection (ss : list Series) :
  ss ≠ [] → Forall (λ s, NoDup (index_of s)) ss →
  ∃ df, concat_inner (Some <$> ss) = Ok df ∧
    (∀ t, t ∈ index (sort_index df) ↔ ∀ s, s ∈ ss → t ∈ index_of s) ∧
    StronglySorted Z.le (index (sort_index df)) ∧
    (∀ ss', ss' ≡ₚ ss →
       ∃ df', concat_inner (Some <$> ss') = Ok df' ∧
              index (sort_index df') = index (sort_index df)) ∧
    (∀ a b c t,
       (t ∈ intersection a b ↔ t ∈ intersection b a) ∧
       (t ∈ intersection (intersection a b) c ↔ t ∈ intersection a (intersection b c))).
Proof.
  intros Hne Hnd.
  destruct (concat_inner_NoDup ss Hne Hnd) as (df & Hdf & _ & Hidx).
  exists df. split; [done|]. split; [|split; [|split]].
  - intros t. by rewrite sort_index_Permutation, Hidx, elem_of_combined_index.
  - apply sort_index_sorted.
  - intros ss' Hperm.
    assert (ss' ≠ []) as Hne'.
    { intros ->. by apply Permutation_nil in Hperm. }
    assert (Forall (λ s, NoDup (index_of s)) ss') as Hnd' by (by rewrite Hperm).
    destruct (concat_inner_NoDup ss' Hne' Hnd') as (df' & Hdf' & _ & Hidx').
    exists df'. split; [done|].
    apply (StronglySorted_unique Z.le); [apply sort_index_sorted..|].
    rewrite !sort_index_Permutation, Hidx, Hidx'.
    by apply combined_index_Permutation.
  - intros a b c t. rewrite !elem_of_intersection. tauto.
Qed.

(** C4 on three series whose dates come shuffled, descending and ascending:
    days 3, 1, 2, then 2, 1, then 1, 2. *)
Lemma merged_index_sorted_intersection_witness :
  let ss := [Example.series "spy_price" [(3, 1); (1, 470); (2, 480)];
             Example.series "vix" [(2, 10); (1, 32)];
             Example.series "cnn_fg" [(1, 15); (2, 85)]] in
  ∃ df, concat_inner (Some <$> ss) = Ok df ∧
    (∀ t, t ∈ index (sort_index df) ↔ ∀ s, s ∈ ss → t ∈ index_of s) ∧
    StronglySorted Z.le (index (sort_index df)) ∧
    (∀ ss', ss' ≡ₚ ss →
       ∃ df', concat_inner (Some <$> ss') = Ok df' ∧
              index (sort_index df') = index (sort_index df)) ∧
    (∀ a b c t,
       (t ∈ intersection a b ↔ t ∈ intersection b a) ∧
       (t ∈ intersection (intersection a b) c ↔ t ∈ intersection a (intersection b c))).
Proof.
  intros ss. apply (merged_index_sorted_intersection ss).
  - discriminate.
  - apply (bool_decide_unpack _). vm_compute. reflexivity.
Defined.

(* ------------------------------------------------------------------ *)
(** ** The validator *)

Lemma column_in df k : k ∈ columns df → column df k = Ok (cell df k <$> rows df).
Proof. intros Hk. unfold column. by rewrite bool_decide_eq_true_2. Qed.

Lemma existsb_cells (p : float → bool) df k :
  existsb p (cell df k <$> rows df) = true ↔ ∃ r, r ∈ rows df ∧ p (cell df k r) = true.
Proof.
  rewrite existsb_exists. split.
  - intros (x & Hin & Hp). apply list_elem_of_In, list_elem_of_fmap in Hin as (r & -> & Hr).
    by exists r.
  - intros (r & Hr & Hp). exists (cell df k r). split; [|done].
    apply list_elem_of_In, list_elem_of_fmap. by exists r.
Qed.

Lemma flt_of_Z a b : flt (of_Z a) (of_Z b) = true ↔ a < b.
Proof.
  rewrite flt_Flt. unfold of_Z. split.
  - intros H. inversion H as [| | |? ? Hlt]; subst. by rewrite Zlt_Qlt.
  - intros H. constructor. by rewrite <- Zlt_Qlt.
Qed.

Lemma Fle_not_flt a b : Fle a b → flt b a = false.
Proof.
  intros H. apply Flt_dec_false. intros Hlt.
  destruct H as [y Hy|x Hx|p q Hpq]; inversion Hlt; subst; try done.
  by apply (Qlt_not_le q p).
Qed.

(** The validator on a frame that has both columns, as a cascade over its
    three checks. *)
Lemma _validate_data_cases df :
  "vix" ∈ columns df → "cnn_fg" ∈ columns df →
  _validate_data df =
    if existsb (λ v, flt v (of_Z 0)) (cell df "vix" <$> rows df)
    then (missing_log df ++ [(ERROR, NegativeVix)], Raise (ValueError "Invalid VIX data"))
    else if existsb (λ v, flt v (of_Z 0)) (cell df "cnn_fg" <$> rows df)
            || existsb (λ v, fgt v (of_Z 100)) (cell df "cnn_fg" <$> rows df)
    then (missing_log df ++ [(ERROR, FearGreedOutOfRange)],
          Raise (ValueError "Invalid CNN Fear & Greed data"))
    else if fgt (days (series_max (diff (index df)))) (of_Z 5)
    then (missing_log df ++ [(WARNING, LargeDateGap)], Ok tt)
    else (missing_log df, Ok tt).
Proof.
  intros Hvix Hfg. unfold _validate_data, missing_log.
  by rewrite (column_in df "vix" Hvix), (column_in df "cnn_fg" Hfg).
Qed.

Lemma missing_log_warnings df : Forall (λ rec : LogRecord, rec.1 = WARNING) (missing_log df).
Proof. unfold missing_log. destruct (existsb _ _); by repeat constructor. Qed.

Lemma missing_log_shape df :
  missing_log df = [] ∨ ∃ counts, missing_log df = [(WARNING, MissingValues counts)].
Proof. unfold missing_log. destruct (existsb _ _); [right; by eexists | by left]. Qed.

Lemma missing_log_null df k r :
  k ∈ columns df → r ∈ rows df → cell df k r = NaN →
  ∃ counts, (WARNING, MissingValues counts) ∈ missing_log df.
Proof.
  intros Hk Hr Hnan. unfold missing_log.
  assert (existsb (λ kv : string * nat, negb (kv.2 =? 0)%nat) (isnull_sum df) = true) as ->.
  { apply existsb_exists.
    exists (k, length (filter (λ v, isna v = true) (cell df k <$> rows df))). split.
    - apply list_elem_of_In. unfold isnull_sum. apply list_elem_of_fmap. by exists k.
    - simpl. assert (NaN ∈ filter (λ v, isna v = true) (cell df k <$> rows df)) as Hin.
      { apply list_elem_of_filter. split; [done|]. rewrite <- Hnan.
        by apply list_elem_of_fmap_2. }
      destruct (filter _ _) as [|x l]; [by inv Hin|done]. }
  eexists. by left.
Qed.

Lemma range_violation_flags df :
  (existsb (λ v, flt v (of_Z 0)) (cell df "vix" <$> rows df)
   || (existsb (λ v, flt v (of_Z 0)) (cell df "cnn_fg" <$> rows df)
       || existsb (λ v, fgt v (of_Z 100)) (cell df "cnn_fg" <$> rows df))) = true
  ↔ ∃ r, r ∈ rows df ∧ range_violation df r.
Proof.
  rewrite !orb_true_iff, !existsb_cells. unfold range_violation, fgt. split.
  - intros [(r & Hr & H)|[(r & Hr & H)|(r & Hr & H)]]; exists r; split; try done;
      apply flt_Flt in H; auto.
  - intros (r & Hr & [H|[H|H]]); apply flt_Flt in H; [left | right; left | right; right];
      by exists r.
Qed.



Lemma getitem_row_of df r k :
  k ∈ columns df → length r.2 = length (columns df) →
  getitem (row_of df r) k = Ok (cell df k r).
Proof.
  intros Hk Hlen. unfold cell.
  enough (∃ v, getitem (row_of df r) k = Ok v) as [v ->] by done.
  unfold row_of. destruct r as [t cells]. simpl in *.
  revert cells Hlen. induction (columns df) as [|c cols IH]; intros cells Hlen.
  - by inv Hk.
  - destruct cells as [|v cells]; [done|]. simpl.
    destruct (String.eqb c k) eqn:E; [by eexists|].
    apply IH; [|by injection Hlen].
    inv Hk; [by rewrite String.eqb_refl in E | done].
Qed.

(** C9.  On a well-formed frame of distinct column labels with a [vix] and a
    [cnn_fg] column in which
    every volatility is missing or at least 0 and every fear value is
    missing or within [0, 100], validation passes; its findings are
    warnings, about missing values or about a date gap; when the dates have
    no gap of more than 5 whole days there is at most the one warning about
    missing values; and a row with a missing volatility or fear value is
    labelled HOLD by the signal engine. *)
Theorem validate_passes_missing_values (df : DataFrame) :
  NoDup (columns df) → "vix" ∈ columns df → "cnn_fg" ∈ columns df →
  Forall (λ r, length r.2 = length (columns df)) (rows df) →
  (∀ r, r ∈ rows df → cell df "vix" r = NaN ∨ Fle (of_Z 0) (cell df "vix" r)) →
  (∀ r, r ∈ rows df →
        cell df "cnn_fg" r = NaN ∨
        (Fle (of_Z 0) (cell df "cnn_fg" r) ∧ Fle (cell df "cnn_fg" r) (of_Z 100))) →
  ∃ findings, _validate_data df = (findings, Ok tt) ∧
    Forall (λ rec : LogRecord,
              rec = (WARNING, LargeDateGap) ∨
              ∃ counts, rec = (WARNING, MissingValues counts)) findings ∧
    ((∀ gap, series_max (diff (index df)) = Some gap → gap / ns_per_day ≤ 5) →
     findings = [] ∨ ∃ counts, findings = [(WARNING, MissingValues counts)]) ∧
    (∀ r, r ∈ rows df → cell df "vix" r = NaN ∨ cell df "cnn_fg" r = NaN →
          generate_signal default (row_of df r) = Ok HOLD).
Proof.
  intros _ Hvix Hfg Hwf Hv Hf. rewrite (_validate_data_cases df Hvix Hfg).
  assert (existsb (λ v, flt v (of_Z 0)) (cell df "vix" <$> rows df) = false) as ->.
  { destruct (existsb _ _) eqn:E; [|done]. apply existsb_cells in E as (r & Hr & Hlt).
    destruct (Hv r Hr) as [Hnan|Hle].
    - by rewrite Hnan in Hlt.
    - by rewrite (Fle_not_flt _ _ Hle) in Hlt. }
  assert (existsb (λ v, flt v (of_Z 0)) (cell df "cnn_fg" <$> rows df) = false) as ->.
  { destruct (existsb _ _) eqn:E; [|done]. apply existsb_cells in E as (r & Hr & Hlt).
    destruct (Hf r Hr) as [Hnan|[Hle _]].
    - by rewrite Hnan in Hlt.
    - by rewrite (Fle_not_flt _ _ Hle) in Hlt. }
  assert (existsb (λ v, fgt v (of_Z 100)) (cell df "cnn_fg" <$> rows df) = false) as ->.
  { destruct (existsb _ _) eqn:E; [|done]. apply existsb_cells in E as (r & Hr & Hlt).
    unfold fgt in Hlt. destruct (Hf r Hr) as [Hnan|[_ Hle]].
    - rewrite Hnan in Hlt. by rewrite flt_nan_r in Hlt.
    - by rewrite (Fle_not_flt _ _ Hle) in Hlt. }
  change (false || false) with false. cbv iota.
  assert (Hlabel : ∀ r, r ∈ rows df → cell df "vix" r = NaN ∨ cell df "cnn_fg" r = NaN →
                        generate_signal default (row_of df r) = Ok HOLD).
  { intros r Hr Hnan. rewrite Forall_forall in Hwf.
    rewrite (generate_signal_cells default (row_of df r)
               (cell df "cnn_fg" r) (cell df "vix" r))
      by (apply getitem_row_of; auto).
    destruct Hnan as [-> | ->]; [|done]. by rewrite orb_true_r. }
  assert (Hshape : Forall (λ rec : LogRecord,
              rec = (WARNING, LargeDateGap) ∨
              ∃ counts, rec = (WARNING, MissingValues counts)) (missing_log df)).
  { destruct (missing_log_shape df) as [-> | [counts ->]]; [constructor|].
    constructor; [right; by exists counts | constructor]. }
  destruct (fgt (days (series_max (diff (index df)))) (of_Z 5)) eqn:Hgap.
  - eexists. split; [done|]. split; [|split; [|done]].
    + apply Forall_app. split; [done|]. constructor; [by left | constructor].
    + intros Hsmall. exfalso. unfold fgt in Hgap.
      destruct (series_max (diff (index df))) as [gap|]; [|done].
      apply flt_of_Z in Hgap. specialize (Hsmall gap eq_refl). lia.
  - eexists. split; [done|]. split; [done|]. split; [|done].
    intros _. apply missing_log_shape.
Qed.

(** C9 on a frame whose only defects are a missing volatility on day 1 and a
    missing fear value on day 2. *)
Lemma validate_passes_missing_values_witness :
  let df := {| columns := ["spy_price"; "vix"; "cnn_fg"];
               rows := [(Example.day 1, [of_Z 470; NaN; of_Z 15]);
                        (Example.day 2, [of_Z 480; of_Z 10; NaN])] |} in
  ∃ findings, _validate_data df = (findings, Ok tt) ∧
    Forall (λ rec : LogRecord,
              rec = (WARNING, LargeDateGap) ∨
              ∃ counts, rec = (WARNING, MissingValues counts)) findings ∧
    ((∀ gap, series_max (diff (index df)) = Some gap → gap / ns_per_day ≤ 5) →
     findings = [] ∨ ∃ counts, findings = [(WARNING, MissingValues counts)]) ∧
    (∀ r, r ∈ rows df → cell df "vix" r = NaN ∨ cell df "cnn_fg" r = NaN →
          generate_signal default (row_of df r) = Ok HOLD).
Proof.
  intros df. apply (validate_passes_missing_values df).
  - apply (bool_decide_unpack _). vm_compute. reflexivity.
  - apply (bool_decide_unpack _). vm_compute. reflexivity.
  - apply (bool_decide_unpack _). vm_compute. reflexivity.
  - repeat constructor.
  - intros r Hr. apply list_elem_of_In in Hr. simpl in Hr.
    destruct Hr as [<-|[<-|[]]]; [by left | right].
    apply fle_Fle. reflexivity.
  - intros r Hr. apply list_elem_of_In in Hr. simpl in Hr.
    destruct Hr as [<-|[<-|[]]]; [right | by left].
    split; apply fle_Fle; reflexivity.
Defined.

(* ------------------------------------------------------------------ *)
(** ** The pipeline on an empty merged frame *)







(** The end-to-end example of the specification: two common dates, the
    first in extreme fear, the second in euphoria. *)
Lemma process_end_to_end :
  process [Some (Example.series "spy_price" [(1, 470); (2, 480)]);
           Some (Example.series "vix" [(1, 32); (2, 10)]);
           Some (Example.series "cnn_fg" [(1, 15); (2, 85)])] =
    ([(INFO, MergedShape 2 3); (INFO, SignalCounts)],
     Ok {| frame := {| columns := ["spy_price"; "vix"; "cnn_fg"];
                       rows := [(Example.day 1, [of_Z 470; of_Z 32; of_Z 15]);
                                (Example.day 2, [of_Z 480; of_Z 10; of_Z 85])] |};
           signals := [BUY; SELL] |}).
Proof. reflexivity. Qed.




(* ------------------------------------------------------------------ *)
(** ** More on the signal rule *)

Lemma Fle_not_nan a b : Fle a b → a ≠ NaN ∧ b ≠ NaN.
Proof. by intros [y Hy|x Hx|p q Hpq]. Qed.

Lemma Fle_Flt_Fle_absurd a b c : Fle a b → Flt b c → Fle c a → False.
Proof.
  intros Hab Hbc Hca.
  destruct Hbc as [q| |p|p q Hpq]; inversion Hab; inversion Hca; subst; try done.
  simplify_eq. apply (Qlt_not_le _ _ Hpq). by eapply Qle_trans.
Qed.

Lemma getitem_KeyError row k : k ∉ row.*1 → getitem row k = Raise (KeyError k).
Proof.
  induction row as [|[c v] row IH]; intros Hk; simpl; [done|].
  destruct (String.eqb c k) eqn:E.
  - apply String.eqb_eq in E as ->. destruct Hk. by left.
  - apply IH. intros Hin. apply Hk. by right.
Qed.

Lemma getitem_Ok row k : k ∈ row.*1 → ∃ v, getitem row k = Ok v.
Proof.
  induction row as [|[c v] row IH]; intros Hk; simpl; [by inv Hk|].
  destruct (String.eqb c k) eqn:E; [by eexists|].
  apply IH. inv Hk; [by rewrite String.eqb_refl in E | done].
Qed.

Ltac label_iff :=
  split; [|split];
  (split; [intros ?; first [done | tauto] | intros ?; first [reflexivity | exfalso; tauto]]).

(** With thresholds that keep the invariant (buy fear bound below sell fear
    bound, sell volatility bound below buy volatility bound) no row of
    distinct labels meets the BUY and the SELL condition together, so the order of the two tests does
    not matter: the label is BUY exactly on the BUY condition, SELL exactly
    on the SELL condition, and HOLD exactly when neither holds. *)
Theorem generate_signal_exclusive (g : SignalGenerator.t) (row : Row) (fg vix : float)
    (Hlabels : NoDup row.*1)
    (Hfg : getitem row "cnn_fg" = Ok fg) (Hvix : getitem row "vix" = Ok vix)
    (Hinv : threshold_invariant (buy_fg_threshold g) (buy_vix_threshold g)
              (sell_fg_threshold g) (sell_vix_threshold g)) :
  let buy := Fle fg (buy_fg_threshold g) ∧ Fle (buy_vix_threshold g) vix in
  let sell := Fle (sell_fg_threshold g) fg ∧ Fle vix (sell_vix_threshold g) in
  ¬ (buy ∧ sell) ∧
  (generate_signal g row = Ok BUY ↔ buy) ∧
  (generate_signal g row = Ok SELL ↔ sell) ∧
  (generate_signal g row = Ok HOLD ↔ ¬ buy ∧ ¬ sell).
Proof.
  intros buy sell.
  assert (Hex : ¬ (buy ∧ sell)).
  { intros [[Hb _] [Hs _]]. destruct Hinv as [Hlt _].
    exact (Fle_Flt_Fle_absurd _ _ _ Hb Hlt Hs). }
  assert (Hb : fle fg (buy_fg_threshold g) && fle (buy_vix_threshold g) vix = true ↔ buy).
  { unfold buy. by rewrite andb_true_iff, !fle_Fle. }
  assert (Hs : fle (sell_fg_threshold g) fg && fle vix (sell_vix_threshold g) = true ↔ sell).
  { unfold sell. by rewrite andb_true_iff, !fle_Fle. }
  assert (Hnb : buy → isna fg || isna vix = false).
  { intros [H1 H2]. apply Fle_not_nan in H1 as [H1 _], H2 as [_ H2].
    apply isna_false in H1, H2. by rewrite H1, H2. }
  assert (Hns : sell → isna fg || isna vix = false).
  { intros [H1 H2]. apply Fle_not_nan in H1 as [_ H1], H2 as [H2 _].
    apply isna_false in H1, H2. by rewrite H1, H2. }
  rewrite (generate_signal_cells g row fg vix Hfg Hvix).
  split; [done|].
  destruct (fle fg (buy_fg_threshold g) && fle (buy_vix_threshold g) vix) eqn:Eb;
    destruct (fle (sell_fg_threshold g) fg && fle vix (sell_vix_threshold g)) eqn:Es.
  - destruct Hex. split; [by apply Hb | by apply Hs].
  - assert buy as Hbuy by (by apply Hb). rewrite (Hnb Hbuy).
    assert (¬ sell) as Hnsell by (intros H; apply Hs in H; done).
    label_iff.
  - assert sell as Hsell by (by apply Hs). rewrite (Hns Hsell).
    assert (¬ buy) as Hnbuy by (intros H; apply Hb in H; done).
    label_iff.
  - assert (¬ buy) as Hnbuy by (intros H; apply Hb in H; done).
    assert (¬ sell) as Hnsell by (intros H; apply Hs in H; done).
    destruct (isna fg || isna vix); label_iff.
Qed.

(** The default thresholds keep the invariant; on the row of the example the
    label is SELL. *)
Lemma generate_signal_exclusive_witness :
  let row := [("spy_price", of_Z 480); ("vix", of_Z 10); ("cnn_fg", of_Z 85)] in
  let buy := Fle (of_Z 85) (of_Z 20) ∧ Fle (of_Z 30) (of_Z 10) in
  let sell := Fle (of_Z 80) (of_Z 85) ∧ Fle (of_Z 10) (of_Z 15) in
  ¬ (buy ∧ sell) ∧
  (generate_signal default row = Ok BUY ↔ buy) ∧
  (generate_signal default row = Ok SELL ↔ sell) ∧
  (generate_signal default row = Ok HOLD ↔ ¬ buy ∧ ¬ sell).
Proof.
  intros row.
  assert (Hlabels : NoDup row.*1).
  { apply (bool_decide_unpack _). vm_compute. reflexivity. }
  apply (generate_signal_exclusive default row (of_Z 85) (of_Z 10) Hlabels eq_refl eq_refl).
  split; apply flt_Flt; reflexivity.
Defined.

(** A row without a [cnn_fg] cell raises KeyError for [cnn_fg], whether or
    not it has a [vix] cell; a row with a [cnn_fg] cell and without a [vix]
    cell raises KeyError for [vix], the lookup of [vix] coming before any
    use of the fear cell; a row of distinct labels with both cells is
    labelled. *)
Theorem generate_signal_missing_cell (g : SignalGenerator.t) (row : Row) :
  ("cnn_fg" ∉ row.*1 → generate_signal g row = Raise (KeyError "cnn_fg")) ∧
  ("cnn_fg" ∈ row.*1 → "vix" ∉ row.*1 → generate_signal g row = Raise (KeyError "vix")) ∧
  (NoDup row.*1 → "cnn_fg" ∈ row.*1 → "vix" ∈ row.*1 →
   ∃ s, generate_signal g row = Ok s).
Proof.
  unfold generate_signal. repeat split.
  - intros H. by rewrite (getitem_KeyError _ _ H).
  - intros H1 H2. destruct (getitem_Ok _ _ H1) as [fg ->].
    by rewrite (getitem_KeyError _ _ H2).
  - intros _ H1 H2. destruct (getitem_Ok _ _ H1) as [fg ->].
    destruct (getitem_Ok _ _ H2) as [vix ->].
    destruct (isna fg || isna vix); [by eexists|].
    destruct (_ && _); [by eexists|]. destruct (_ && _); by eexists.
Qed.

(** A row of prices alone raises KeyError for [cnn_fg]; with a fear cell
    added, KeyError for [vix]; with both, it is labelled. *)
Lemma generate_signal_missing_cell_witness :
  generate_signal default [("spy_price", of_Z 470)] = Raise (KeyError "cnn_fg") ∧
  generate_signal default [("spy_price", of_Z 470); ("cnn_fg", of_Z 15)]
    = Raise (KeyError "vix") ∧
  ∃ s, generate_signal default
         [("spy_price", of_Z 470); ("vix", of_Z 32); ("cnn_fg", of_Z 15)] = Ok s.
Proof.
  split; [|split].
  - apply (generate_signal_missing_cell default [("spy_price", of_Z 470)]).
    apply (bool_decide_unpack _). vm_compute. reflexivity.
  - apply (generate_signal_missing_cell default
             [("spy_price", of_Z 470); ("cnn_fg", of_Z 15)]).
    + apply (bool_decide_unpack _). vm_compute. reflexivity.
    + apply (bool_decide_unpack _). vm_compute. reflexivity.
  - apply (generate_signal_missing_cell default
             [("spy_price", of_Z 470); ("vix", of_Z 32); ("cnn_fg", of_Z 15)]).
    + apply (bool_decide_unpack _). vm_compute. reflexivity.
    + apply (bool_decide_unpack _). vm_compute. reflexivity.
    + apply (bool_decide_unpack _). vm_compute. reflexivity.
Defined.

(* ------------------------------------------------------------------ *)
(** ** More on the validator *)

Lemma column_missing df k : k ∉ columns df → column df k = Raise (KeyError k).
Proof. intros Hk. unfold column. by rewrite bool_decide_eq_false_2. Qed.

(** The checks run in a fixed order, on a frame of distinct column labels.
    Without a [vix] column validation raises KeyError for [vix]; with one, a negative volatility raises the
    ValueError for VIX and logs that error alone, whatever the [cnn_fg]
    column holds and even when it is absent; only then is the [cnn_fg]
    column looked up, and its absence raises KeyError for [cnn_fg]. *)
Theorem validate_check_order (df : DataFrame) :
  NoDup (columns df) →
  ("vix" ∉ columns df → (_validate_data df).2 = Raise (KeyError "vix")) ∧
  ("vix" ∈ columns df → (∃ r, r ∈ rows df ∧ Flt (cell df "vix" r) (of_Z 0)) →
   _validate_data df =
     (missing_log df ++ [(ERROR, NegativeVix)], Raise (ValueError "Invalid VIX data"))) ∧
  ("vix" ∈ columns df → (¬ ∃ r, r ∈ rows df ∧ Flt (cell df "vix" r) (of_Z 0)) →
   "cnn_fg" ∉ columns df → (_validate_data df).2 = Raise (KeyError "cnn_fg")).
Proof.
  intros _. unfold _validate_data. fold (missing_log df). split; [|split].
  - intros Hvix. by rewrite (column_missing df "vix" Hvix).
  - intros Hvix (r & Hr & Hneg). rewrite (column_in df "vix" Hvix).
    assert (existsb (λ v, flt v (of_Z 0)) (cell df "vix" <$> rows df) = true) as ->; [|done].
    apply existsb_cells. exists r. split; [done|]. by apply flt_Flt.
  - intros Hvix Hno Hfg. rewrite (column_in df "vix" Hvix).
    destruct (existsb _ _) eqn:E.
    + destruct Hno. apply existsb_cells in E as (r & Hr & Hneg).
      exists r. split; [done|]. by apply flt_Flt.
    + by rewrite (column_missing df "cnn_fg" Hfg).
Qed.

(** The order on a frame without a [cnn_fg] column: a negative volatility is
    what validation reports, and with the volatility in range the missing
    column is. *)
Lemma validate_check_order_witness :
  _validate_data {| columns := ["spy_price"; "vix"];
                    rows := [(Example.day 1, [of_Z 470; Fin (-1)])] |}
    = ([(ERROR, NegativeVix)], Raise (ValueError "Invalid VIX data")) ∧
  (_validate_data {| columns := ["spy_price"; "vix"];
                     rows := [(Example.day 1, [of_Z 470; of_Z 20])] |}).2
    = Raise (KeyError "cnn_fg").
Proof.
  assert (Hlabels : NoDup ["spy_price"; "vix"]).
  { apply (bool_decide_unpack _). vm_compute. reflexivity. }
  assert (Hvix : "vix" ∈ ["spy_price"; "vix"]).
  { apply (bool_decide_unpack _). vm_compute. reflexivity. }
  split.
  - destruct (validate_check_order
                {| columns := ["spy_price"; "vix"];
                   rows := [(Example.day 1, [of_Z 470; Fin (-1)])] |} Hlabels)
      as (_ & Hneg & _).
    rewrite Hneg; [reflexivity | exact Hvix |].
    exists (Example.day 1, [of_Z 470; Fin (-1)]). split; [by left|].
    apply flt_Flt. reflexivity.
  - destruct (validate_check_order
                {| columns := ["spy_price"; "vix"];
                   rows := [(Example.day 1, [of_Z 470; of_Z 20])] |} Hlabels)
      as (_ & _ & Hfg).
    apply Hfg; [exact Hvix | |].
    + intros (r & Hr & Hlt). apply list_elem_of_In in Hr. simpl in Hr.
      destruct Hr as [<-|[]]. apply flt_Flt in Hlt. discriminate.
    + apply (bool_decide_unpack _). vm_compute. reflexivity.
Defined.

Lemma length_filter_isna {A : Type} (f : A → float) (l : list A) :
  length (filter (λ v, isna v = true) (f <$> l)) = length (filter (λ r, f r = NaN) l).
Proof.
  induction l as [|x l IH]; [done|]. csimpl. rewrite !filter_cons.
  destruct (decide (isna (f x) = true)) as [Hx|Hx];
    destruct (decide (f x = NaN)) as [Hy|Hy]; simpl; rewrite ?IH; try done.
  - by apply isna_true in Hx.
  - destruct Hx. by apply isna_true.
Qed.

Lemma elem_of_isnull_sum df k n :
  (k, n) ∈ isnull_sum df ↔
  k ∈ columns df ∧ n = length (filter (λ r, cell df k r = NaN) (rows df)).
Proof.
  unfold isnull_sum. rewrite list_elem_of_fmap. split.
  - intros (k' & [= -> ->] & Hk). split; [done|]. apply length_filter_isna.
  - intros [Hk ->]. exists k. split; [|done]. f_equal. symmetry. apply length_filter_isna.
Qed.

(** What validation logs starts with the record about missing values, if
    any, and no later record is about missing values. *)
Lemma validate_findings_prefix df :
  ∃ rest, (_validate_data df).1 = missing_log df ++ rest ∧
          Forall (λ rec : LogRecord, ∀ counts, rec.2 ≠ MissingValues counts) rest.
Proof.
  unfold _validate_data. fold (missing_log df).
  destruct (column df "vix") as [vix|e]; [|exists []; by rewrite app_nil_r].
  destruct (existsb _ vix); [eexists; split; [done|]; by repeat constructor|].
  destruct (column df "cnn_fg") as [fg|e]; [|exists []; by rewrite app_nil_r].
  destruct (_ || _); [eexists; split; [done|]; by repeat constructor|].
  destruct (fgt _ _); [eexists; split; [done|]; by repeat constructor|].
  exists []. by rewrite app_nil_r.
Qed.

(** On a frame of distinct column labels, validation logs a record about
    missing values exactly when some cell of some column is NaN, whatever
    its verdict.  The record is a warning, and
    it lists the columns that have a NaN cell, each with the number of its
    NaN cells, and no other column. *)
Theorem validate_missing_values_record (df : DataFrame) :
  NoDup (columns df) →
  ((∃ lvl counts, (lvl, MissingValues counts) ∈ (_validate_data df).1) ↔
   ∃ k r, k ∈ columns df ∧ r ∈ rows df ∧ cell df k r = NaN) ∧
  (∀ lvl counts, (lvl, MissingValues counts) ∈ (_validate_data df).1 →
     lvl = WARNING ∧
     ∀ k n, (k, n) ∈ counts ↔
            k ∈ columns df ∧ n = length (filter (λ r, cell df k r = NaN) (rows df)) ∧
            (0 < n)%nat).
Proof.
  intros _. destruct (validate_findings_prefix df) as (rest & -> & Hrest).
  assert (Hin : ∀ lvl counts, (lvl, MissingValues counts) ∈ missing_log df ++ rest →
            (lvl, MissingValues counts) ∈ missing_log df).
  { intros lvl counts [H|H]%elem_of_app; [done|].
    rewrite Forall_forall in Hrest. by destruct (Hrest _ H counts). }
  assert (Hlog : ∀ lvl counts, (lvl, MissingValues counts) ∈ missing_log df →
            lvl = WARNING ∧ counts = filter (λ kv, (0 < kv.2)%nat) (isnull_sum df)).
  { intros lvl counts. unfold missing_log. destruct (existsb _ _); [|by inversion 1].
    intros H%list_elem_of_singleton. by simplify_eq. }
  split.
  - split.
    + intros (lvl & counts & H%Hin). unfold missing_log in H.
      destruct (existsb _ _) eqn:E; [|by inv H].
      apply existsb_exists in E as ([k n] & Hkn%list_elem_of_In & Hn). simpl in Hn.
      apply elem_of_isnull_sum in Hkn as [Hk ->]. exists k.
      destruct (filter _ (rows df)) as [|r l] eqn:Ef; [done|].
      assert (r ∈ filter (λ r, cell df k r = NaN) (rows df)) as Hr by (rewrite Ef; by left).
      apply list_elem_of_filter in Hr as [Hnan Hr]. by exists r.
    + intros (k & r & Hk & Hr & Hnan).
      destruct (missing_log_null df k r Hk Hr Hnan) as [counts Hc].
      exists WARNING, counts. apply elem_of_app. by left.
  - intros lvl counts [-> ->]%Hin%Hlog. split; [done|]. intros k n.
    rewrite list_elem_of_filter, elem_of_isnull_sum. simpl. tauto.
Qed.

(** The record on a frame with two missing volatilities and one missing
    fear value, one of its volatilities negative. *)
Lemma validate_missing_values_record_witness :
  let df := {| columns := ["spy_price"; "vix"; "cnn_fg"];
               rows := [(Example.day 1, [of_Z 470; NaN; of_Z 15]);
                        (Example.day 2, [of_Z 475; NaN; NaN]);
                        (Example.day 3, [of_Z 480; Fin (-1); of_Z 85])] |} in
  (_validate_data df).1
    = [(WARNING, MissingValues [("vix", 2%nat); ("cnn_fg", 1%nat)]);
       (ERROR, NegativeVix)] ∧
  ((∃ lvl counts, (lvl, MissingValues counts) ∈ (_validate_data df).1) ↔
   ∃ k r, k ∈ columns df ∧ r ∈ rows df ∧ cell df k r = NaN) ∧
  (∀ lvl counts, (lvl, MissingValues counts) ∈ (_validate_data df).1 →
     lvl = WARNING ∧
     ∀ k n, (k, n) ∈ counts ↔
            k ∈ columns df ∧ n = length (filter (λ r, cell df k r = NaN) (rows df)) ∧
            (0 < n)%nat).
Proof.
  intros df. split; [reflexivity|].
  apply (validate_missing_values_record df).
  apply (bool_decide_unpack _). vm_compute. reflexivity.
Defined.

Lemma elem_of_diff_from l : ∀ prev d,
  Some d ∈ diff_from prev l ↔
  ∃ i a b, (prev :: l) !! i = Some a ∧ (prev :: l) !! S i = Some b ∧ d = b - a.
Proof.
  induction l as [|x l IH]; intros prev d; simpl.
  - split; [by inversion 1|]. intros (i & a & b & _ & Hb & _). by destruct i.
  - rewrite elem_of_cons, IH. split.
    + intros [[= ->]|(i & a & b & Ha & Hb & ->)].
      * by exists 0%nat, prev, x.
      * by exists (S i), a, b.
    + intros (i & a & b & Ha & Hb & ->). destruct i as [|i].
      * left. simpl in Ha, Hb. by simplify_eq.
      * right. by exists i, a, b.
Qed.

Lemma elem_of_diff l d :
  Some d ∈ diff l ↔ ∃ i a b, l !! i = Some a ∧ l !! S i = Some b ∧ d = b - a.
Proof.
  destruct l as [|x l]; simpl.
  - split; [by inversion 1|]. by intros (i & a & b & Ha & _).
  - rewrite elem_of_cons, elem_of_diff_from. split; [|by right].
    by intros [?|?].
Qed.

Lemma series_max_spec l :
  match series_max l with
  | Some m => Some m ∈ l ∧ ∀ x, Some x ∈ l → x ≤ m
  | None => ∀ x, Some x ∉ l
  end.
Proof.
  induction l as [|[x|] l IH]; simpl.
  - intros x. by inversion 1.
  - destruct (series_max l) as [m|].
    + destruct IH as [Hm Hmax]. split.
      * destruct (Z.max_spec x m) as [[_ ->]|[_ ->]]; [by right | by left].
      * intros y [[= ->]|Hy]%elem_of_cons; [lia|]. specialize (Hmax y Hy). lia.
    + split; [by left|]. intros y [[= ->]|Hy]%elem_of_cons; [lia|]. by destruct (IH y).
  - destruct (series_max l) as [m|].
    + destruct IH as [Hm Hmax]. split; [by right|].
      intros y [?|Hy]%elem_of_cons; [done | by apply Hmax].
    + intros y [?|Hy]%elem_of_cons; [done | by destruct (IH y)].
Qed.

Lemma whole_days_gt_5 m : 5 < m / ns_per_day ↔ 6 * ns_per_day ≤ m.
Proof.
  assert (0 < ns_per_day) as Hpos by reflexivity. split.
  - intros H. pose proof (Z.mul_div_le m ns_per_day Hpos). nia.
  - intros H. enough (6 ≤ m / ns_per_day) by lia.
    apply Z.div_le_lower_bound; lia.
Qed.

(** On a frame of distinct column labels that passes the range checks, the
    warning about a date gap is logged exactly when two consecutive index entries are at least 6 whole
    days apart: a gap of more than 5 days but less than 6 is not reported,
    and a frame with fewer than two rows never gets the warning. *)
Theorem validate_gap_warning (df : DataFrame) :
  NoDup (columns df) → "vix" ∈ columns df → "cnn_fg" ∈ columns df →
  (¬ ∃ r, r ∈ rows df ∧ range_violation df r) →
  ((WARNING, LargeDateGap) ∈ (_validate_data df).1 ↔
   ∃ i a b, index df !! i = Some a ∧ index df !! S i = Some b ∧ 6 * ns_per_day ≤ b - a) ∧
  ((length (rows df) < 2)%nat → (WARNING, LargeDateGap) ∉ (_validate_data df).1).
Proof.
  intros _ Hvix Hfg Hno. rewrite (_validate_data_cases df Hvix Hfg).
  pose proof (range_violation_flags df) as Hflags.
  destruct (existsb _ (cell df "vix" <$> rows df)); [destruct Hno; by apply Hflags|].
  destruct (existsb _ (cell df "cnn_fg" <$> rows df) || existsb _ _);
    [destruct Hno; by apply Hflags|].
  assert (Hnolog : (WARNING, LargeDateGap) ∉ missing_log df).
  { destruct (missing_log_shape df) as [-> | [counts ->]]; [by inversion 1|].
    by intros [=]%list_elem_of_singleton. }
  assert (Hgap : fgt (days (series_max (diff (index df)))) (of_Z 5) = true ↔
    ∃ i a b, index df !! i = Some a ∧ index df !! S i = Some b ∧ 6 * ns_per_day ≤ b - a).
  { pose proof (series_max_spec (diff (index df))) as Hmax. unfold fgt.
    destruct (series_max (diff (index df))) as [m|]; unfold days.
    - destruct Hmax as [Hm Hmax].
      rewrite flt_of_Z, whole_days_gt_5. split.
      + intros Hle. apply elem_of_diff in Hm as (i & a & b & Ha & Hb & ->).
        by exists i, a, b.
      + intros (i & a & b & Ha & Hb & Hle).
        assert (b - a ≤ m); [|lia]. apply Hmax, elem_of_diff. by exists i, a, b.
    - split; [done|]. intros (i & a & b & Ha & Hb & Hle).
      destruct (Hmax (b - a)). apply elem_of_diff. by exists i, a, b. }
  assert (Hfew : (length (rows df) < 2)%nat →
    ¬ ∃ i a b, index df !! i = Some a ∧ index df !! S i = Some b ∧ 6 * ns_per_day ≤ b - a).
  { intros Hlen (i & a & b & _ & Hb & _). apply lookup_lt_Some in Hb.
    unfold index in Hb. rewrite length_fmap in Hb. lia. }
  destruct (fgt (days (series_max (diff (index df)))) (of_Z 5)) eqn:E; simpl; split.
  - split; [intros _; by apply Hgap|]. intros _. apply elem_of_app. right. by left.
  - intros Hlen. destruct (Hfew Hlen). by apply Hgap.
  - split; [done|]. intros H. apply Hgap in H. done.
  - intros _. done.
Qed.

(** The gap rule on a frame over days 1, 6 and 12: five days, then six. *)
Lemma validate_gap_warning_witness :
  let df := {| columns := ["vix"; "cnn_fg"];
               rows := [(Example.day 1, [of_Z 20; of_Z 50]);
                        (Example.day 6, [of_Z 21; of_Z 51]);
                        (Example.day 12, [of_Z 22; of_Z 52])] |} in
  ((WARNING, LargeDateGap) ∈ (_validate_data df).1 ↔
   ∃ i a b, index df !! i = Some a ∧ index df !! S i = Some b ∧ 6 * ns_per_day ≤ b - a) ∧
  ((length (rows df) < 2)%nat → (WARNING, LargeDateGap) ∉ (_validate_data df).1).
Proof.
  intros df. apply (validate_gap_warning df).
  - apply (bool_decide_unpack _). vm_compute. reflexivity.
  - apply (bool_decide_unpack _). vm_compute. reflexivity.
  - apply (bool_decide_unpack _). vm_compute. reflexivity.
  - intros (r & Hr & Hv). apply list_elem_of_In in Hr. simpl in Hr.
    destruct Hr as [<-|[<-|[<-|[]]]];
      destruct Hv as [Hv|[Hv|Hv]]; apply flt_Flt in Hv; discriminate.
Defined.

(* ------------------------------------------------------------------ *)
(** ** More on the HOLD-run statistics *)

Lemma sum_snoc l x : sum (l ++ [x]) = sum l + x.
Proof. unfold sum. induction l as [|y l IH]; simpl; [lia|]. rewrite IH. lia. Qed.

(** What the loop keeps, from any state with periods of at least 1 and a
    counter that is not negative. *)
Lemma hold_loop_invariants sigs : ∀ hold_periods cur,
  Forall (λ p, 1 ≤ p) hold_periods → 0 ≤ cur →
  Forall (λ p, 1 ≤ p) (hold_loop sigs hold_periods cur).1 ∧
  0 ≤ (hold_loop sigs hold_periods cur).2 ∧
  sum (hold_loop sigs hold_periods cur).1 + (hold_loop sigs hold_periods cur).2
    = sum hold_periods + cur + Z.of_nat (length (filter (λ s, s = HOLD) sigs)) ∧
  (length (hold_loop sigs hold_periods cur).1
    ≤ length hold_periods + length (filter (λ s, s ≠ HOLD) sigs))%nat.
Proof.
  induction sigs as [|s sigs IH]; intros hp cur Hhp Hcur; simpl.
  - repeat split; [done | done | lia | lia].
  - rewrite !filter_cons. destruct (bool_decide (s = HOLD)) eqn:E.
    + apply bool_decide_eq_true in E as ->.
      destruct (decide (HOLD = HOLD)); [|done]. destruct (decide (HOLD ≠ HOLD)); [done|].
      destruct (IH hp (cur + 1) Hhp ltac:(lia)) as (H1 & H2 & H3 & H4).
      repeat split; [done | done | | done]. rewrite H3. simpl. lia.
    + apply bool_decide_eq_false in E.
      destruct (decide (s = HOLD)); [done|]. destruct (decide (s ≠ HOLD)); [|done].
      destruct (0 <? cur) eqn:Ec.
      * apply Z.ltb_lt in Ec.
        destruct (IH (hp ++ [cur]) 0) as (H1 & H2 & H3 & H4).
        { apply Forall_app. split; [done|]. constructor; [lia | constructor]. }
        { lia. }
        repeat split; [done | done | |].
        -- rewrite H3, sum_snoc. lia.
        -- rewrite length_app in H4. simpl in *. lia.
      * apply Z.ltb_ge in Ec.
        destruct (IH hp 0 Hhp ltac:(lia)) as (H1 & H2 & H3 & H4).
        repeat split; [done | done | |].
        -- rewrite H3. lia.
        -- simpl. lia.
Qed.

Lemma sum_ge_length l : Forall (λ p, 1 ≤ p) l → Z.of_nat (length l) ≤ sum l.
Proof.
  unfold sum. induction 1 as [|x l Hx _ IH]; simpl; [lia|]. lia.
Qed.

(** Every hold period the loop records is at least 1: a label other than
    HOLD that follows another one adds no period of length 0.  The periods
    add up to at most the number of HOLD labels, there are at most as many
    periods as labels other than HOLD, and the mean that is logged is at
    least 1. *)
Theorem hold_periods_invariants (sigs : list signal) :
  Forall (λ p, 1 ≤ p) (hold_periods_of sigs) ∧
  sum (hold_periods_of sigs) ≤ Z.of_nat (length (filter (λ s, s = HOLD) sigs)) ∧
  (length (hold_periods_of sigs) ≤ length (filter (λ s, s ≠ HOLD) sigs))%nat ∧
  (∀ avg, avg_hold (hold_periods_of sigs) = Some avg → (1 <= avg)%Q).
Proof.
  unfold hold_periods_of.
  destruct (hold_loop_invariants sigs [] 0) as (H1 & H2 & H3 & H4); [constructor | lia |].
  split; [done|]. split; [simpl in H3; lia|]. split; [done|].
  intros avg Havg. pose proof (sum_ge_length _ H1) as Hsum.
  unfold avg_hold in Havg. destruct (hold_loop sigs [] 0).1 as [|p l] eqn:El; [done|].
  injection Havg as <-.
  apply Qle_shift_div_l.
  - change 0%Q with (inject_Z 0). rewrite <- Zlt_Qlt. simpl. lia.
  - rewrite Qmult_1_l. by rewrite <- Zle_Qle.
Qed.

Lemma hold_loop_replicate n : ∀ hold_periods cur,
  hold_loop (replicate n HOLD) hold_periods cur = (hold_periods, cur + Z.of_nat n).
Proof.
  induction n as [|n IH]; intros hp cur; simpl.
  - f_equal. lia.
  - rewrite IH. f_equal. lia.
Qed.

(** HOLD labels at the end of the sequence change nothing: the periods of a
    sequence followed by any number of HOLD labels are the periods of the
    sequence itself. *)
Theorem hold_periods_trailing_holds (sigs : list signal) (n : nat) :
  hold_periods_of (sigs ++ replicate n HOLD) = hold_periods_of sigs.
Proof.
  unfold hold_periods_of. by rewrite hold_loop_app, hold_loop_replicate.
Qed.

(** The periods of a sequence closed by SELL. *)
Lemma hold_periods_closed_witness :
  hold_periods_of ([HOLD; HOLD; BUY; HOLD] ++ [SELL])
  = spec_hold_runs ([HOLD; HOLD; BUY; HOLD] ++ [SELL]).
Proof. apply (hold_periods_closed [HOLD; HOLD; BUY; HOLD] SELL). discriminate. Defined.


(* ------------------------------------------------------------------ *)
(** ** More on the retry decorator *)

(** With [max_retries <= 0] the loop has no attempt to make: the wrapped
    function is not called at all and the wrapper returns None. *)
Theorem retry_without_attempts {W A : Type} (elapse : Z → W → W)
    (max_retries delay : Z) (func : IO W A) (w : W) :
  max_retries ≤ 0 →
  retry_on_error elapse max_retries delay func w = (Ok None, w) ∧
  retry_on_error (elapse_traced elapse) max_retries delay (traced func) (w, [])
    = (Ok None, (w, [])).
Proof.
  intros Hmax. split; by apply retry_none_without_attempts.
Qed.

(** No attempt allowed: a function that would succeed is not called. *)
Lemma retry_without_attempts_witness :
  retry_on_error Example.no_elapse 0 1 (Example.flaky 0) 0%nat = (Ok None, 0%nat) ∧
  retry_on_error (elapse_traced Example.no_elapse) 0 1 (traced (Example.flaky 0)) (0%nat, [])
    = (Ok None, (0%nat, [])).
Proof.
  apply (retry_without_attempts Example.no_elapse 0 1 (Example.flaky 0) 0%nat). lia.
Defined.

Section RetryClock.

Context {W A : Type}.
Variable elapse : Z → W → W.
Variables (max_retries delay : Z).
Variable func : IO W A.

(** The loop on a world with a clock, from the clock value [t0]: with a
    delay that [time.sleep] accepts, it sleeps once between two calls and
    never after the last one. *)
Lemma wrapper_loop_clock (n : nat) : ∀ k w t0 tr0,
  k + Z.of_nat n = max_retries → 0 ≤ delay →
  ∃ r w' t tr1,
    wrapper_loop (elapse_traced (elapse_clock elapse)) max_retries delay
      (traced (unclocked func)) (seqZ k (Z.of_nat n)) ((w, t0), tr0)
      = (r, ((w', t), tr0 ++ tr1)) ∧
    wrapper_loop elapse max_retries delay func (seqZ k (Z.of_nat n)) w = (r, w') ∧
    ((n = 0%nat ∧ tr1 = [] ∧ t = t0) ∨
     (tr1 ≠ [] ∧ t = t0 + delay * (Z.of_nat (length tr1) - 1))).
Proof.
  induction n as [|n IH]; intros k w t0 tr0 Hk Hdelay.
  - exists (Ok None), w, t0, []. change (seqZ k (Z.of_nat 0)) with (@nil Z). simpl.
    rewrite app_nil_r. split; [done|]. split; [done|]. by left.
  - rewrite seqZ_S. simpl. unfold traced at 1, unclocked at 1. simpl.
    destruct (func w) as [[v|e] w1] eqn:Hf.
    { exists (Ok (Some v)), w1, t0, [Ok v]. split; [done|]. split; [done|].
      right. split; [done|]. simpl. lia. }
    destruct (is_Exception e) eqn:He.
    2:{ exists (Raise e), w1, t0, [Raise e]. split; [done|]. split; [done|].
        right. split; [done|]. simpl. lia. }
    destruct (k =? max_retries - 1) eqn:Hlast.
    { exists (Raise e), w1, t0, [Raise e]. split; [done|]. split; [done|].
      right. split; [done|]. simpl. lia. }
    apply Z.eqb_neq in Hlast.
    unfold time_sleep. unfold elapse_traced at 1, elapse_clock at 1. simpl.
    assert ((delay <? 0) = false) as -> by (apply Z.ltb_ge; lia).
    destruct (IH (k + 1) (elapse delay w1) (t0 + delay) (tr0 ++ [Raise e]))
      as (r & w' & t & tr1 & Ht & Hu & Hclock); [lia | done |].
    exists r, w', t, (Raise e :: tr1). split; [|split; [done|]].
    { rewrite Ht. by rewrite <- app_assoc. }
    right. split; [done|].
    destruct Hclock as [(-> & _ & _)|[Hne ->]]; [lia|]. simpl length. lia.
Qed.

End RetryClock.

(** With [max_retries >= 1] and a delay that [time.sleep] accepts, the
    wrapper sleeps [delay] seconds once between two calls of the wrapped
    function and at no other time: the seconds slept are [delay] times the
    number of calls less one, so nothing is slept after a call that succeeds
    nor after the last failure. *)
Theorem retry_sleeps_between_calls {W A : Type} (elapse : Z → W → W)
    (max_retries delay : Z) (func : IO W A) (w : W) :
  1 ≤ max_retries → 0 ≤ delay →
  ∃ r w' slept tr,
    retry_on_error (elapse_traced (elapse_clock elapse)) max_retries delay
      (traced (unclocked func)) ((w, 0), []) = (r, ((w', slept), tr)) ∧
    retry_on_error elapse max_retries delay func w = (r, w') ∧
    slept = delay * (Z.of_nat (length tr) - 1) ∧
    slept ≤ delay * (max_retries - 1).
Proof.
  intros Hmax Hdelay.
  destruct (wrapper_loop_clock elapse max_retries delay func (Z.to_nat max_retries)
              0 w 0 []) as (r & w' & t & tr & Ht & Hu & Hclock); [lia | done |].
  rewrite Z2Nat.id in Ht, Hu by lia.
  exists r, w', t, tr. split; [done|]. split; [done|].
  destruct Hclock as [(? & _ & _)|[Hne ->]]; [lia|]. split; [lia|].
  destruct (retry_on_error_traced (elapse_clock elapse) max_retries delay
              (unclocked func) (w, 0)) as (r' & w'' & tr' & Ht' & _ & Hrun); [lia|].
  unfold retry_on_error, range in Ht'. simpl in Ht. rewrite Ht in Ht'.
  injection Ht' as <- <- <-.
  assert (Z.of_nat (length tr) ≤ max_retries); [|nia].
  inversion Hrun; subst; rewrite ?length_app; simpl; lia.
Qed.

(** A function that fails twice and then returns, with three attempts and a
    delay of one second: two seconds are slept. *)
Lemma retry_sleeps_between_calls_witness :
  ∃ r w' slept tr,
    retry_on_error (elapse_traced (elapse_clock Example.no_elapse)) 3 1
      (traced (unclocked (Example.flaky 2))) ((0%nat, 0), []) = (r, ((w', slept), tr)) ∧
    retry_on_error Example.no_elapse 3 1 (Example.flaky 2) 0%nat = (r, w') ∧
    slept = 1 * (Z.of_nat (length tr) - 1) ∧
    slept ≤ 1 * (3 - 1).
Proof.
  apply (retry_sleeps_between_calls Example.no_elapse 3 1 (Example.flaky 2) 0%nat); lia.
Defined.

(* ------------------------------------------------------------------ *)
(** ** More on loading and resolution *)

(** A value the wrapper returns is a value the wrapped function returned,
    and the world is the one that call left. *)
Lemma wrapper_loop_Ok_inv {W A : Type} (elapse : Z → W → W) (max_retries delay : Z)
    (func : IO W A) (attempts : list Z) : ∀ w v w',
  wrapper_loop elapse max_retries delay func attempts w = (Ok (Some v), w') →
  ∃ w0, func w0 = (Ok v, w').
Proof.
  induction attempts as [|attempt rest IH]; intros w v w' Hrun; simpl in Hrun; [done|].
  destruct (func w) as [[v0|e] w1] eqn:Hf.
  - injection Hrun as -> ->. by exists w.
  - destruct (is_Exception e); [|done].
    destruct (attempt =? max_retries - 1); [done|].
    destruct (time_sleep elapse delay w1) as [[[]|e'] w2]; [|done].
    by apply IH in Hrun.
Qed.

Section LoaderFacts.

Context {W : Type}.
Variable elapse : Z → W → W.
Variable path_exists : Path → W → bool.
Variable read_csv : Path → IO W DataFrame.

Lemma _load_series_body_Ok_inv path value_col w s w' :
  _load_series_body elapse path_exists read_csv path value_col w = (Ok s, w') →
  ∃ df w0, read_csv path w0 = (Ok df, w') ∧ length (columns df) = 1%nat ∧
           s = {| sname := or_name value_col (hd "" (columns df));
                  items := (λ r, (r.1, hd NaN r.2)) <$> rows df |}.
Proof.
  unfold _load_series_body. destruct (path_exists path w); simpl; [|done].
  assert (Hfin : ∀ (r : result DataFrame) (w1 : W),
    match r with
    | Raise e => (Raise e, w1)
    | Ok df =>
      if bool_decide (length (columns df) = 1%nat)
      then (Ok {| sname := or_name value_col (sname (iloc_col0 df));
                  items := items (iloc_col0 df) |}, w1)
      else (Raise (ValueError ("Expected exactly 1 data column in " +:+ name path)), w1)
    end = (Ok s, w') →
    ∃ df, r = Ok df ∧ w1 = w' ∧ length (columns df) = 1%nat ∧
          s = {| sname := or_name value_col (hd "" (columns df));
                 items := (λ r, (r.1, hd NaN r.2)) <$> rows df |}).
  { intros [df|e] w1 H; [|done]. destruct (bool_decide _) eqn:E; [|done].
    apply bool_decide_eq_true in E. injection H as <- <-. by exists df. }
  destruct (read_csv path w) as [[df|e] w1] eqn:Hread.
  - intros H. apply (Hfin (Ok df) w1) in H as (df' & [= <-] & <- & Hlen & ->).
    by exists df, w.
  - destruct (is_PermissionError e).
    + unfold time_sleep. simpl.
      destruct (read_csv path (elapse 1 w1)) as [r w2] eqn:Hread2.
      intros H. apply (Hfin r w2) in H as (df' & -> & <- & Hlen & ->).
      by exists df', (elapse 1 w1).
    + done.
Qed.

Lemma _load_series_Ok_inv path value_col w s w' :
  _load_series elapse path_exists read_csv path value_col w = (Ok (Some s), w') →
  ∃ df w0, read_csv path w0 = (Ok df, w') ∧ length (columns df) = 1%nat ∧
           s = {| sname := or_name value_col (hd "" (columns df));
                  items := (λ r, (r.1, hd NaN r.2)) <$> rows df |}.
Proof.
  unfold _load_series, retry_on_error. intros H.
  apply wrapper_loop_Ok_inv in H as (w0 & Hbody).
  by apply _load_series_body_Ok_inv in Hbody.
Qed.

End LoaderFacts.

Lemma _load_series_missing {W : Type} (elapse : Z → W → W)
    (path_exists : Path → W → bool) (read_csv : Path → IO W DataFrame)
    (path : Path) (value_col : option string) (w : W) :
  path_exists path w = false →
  path_exists path (elapse 1 w) = false →
  path_exists path (elapse 1 (elapse 1 w)) = false →
  _load_series elapse path_exists read_csv path value_col w =
    (Raise (FileNotFoundError ("找不到檔案：" +:+ path_str path)), elapse 1 (elapse 1 w)).
Proof.
  intros H0 H1 H2. unfold _load_series, retry_on_error.
  change (range 3) with [0; 1; 2]. unfold wrapper_loop, _load_series_body, time_sleep.
  rewrite H0. simpl. rewrite H1. simpl. by rewrite H2.
Qed.

(** A file that is not there, and does not appear while the loader waits,
    costs three attempts with a sleep of one second between them; the loader
    then raises the FileNotFoundError that names the path, and it has never
    tried to read the file. *)
Theorem load_series_missing_file {W : Type} (elapse : Z → W → W)
    (path_exists : Path → W → bool) (read_csv : Path → IO W DataFrame)
    (path : Path) (value_col : option string) (w : W) :
  path_exists path w = false →
  path_exists path (elapse 1 w) = false →
  path_exists path (elapse 1 (elapse 1 w)) = false →
  _load_series elapse path_exists read_csv path value_col w =
    (Raise (FileNotFoundError ("找不到檔案：" +:+ path_str path)), elapse 1 (elapse 1 w)).
Proof. apply _load_series_missing. Qed.

(** The loader on an empty directory. *)
Lemma load_series_missing_file_witness :
  _load_series Example.no_elapse Example.fs_exists Example.fs_read_csv
    (path_join RAW_DIR "spy.csv") (Some "spy_price") [] =
    (Raise (FileNotFoundError ("找不到檔案：" +:+ path_str (path_join RAW_DIR "spy.csv"))),
     Example.no_elapse 1 (Example.no_elapse 1 [])).
Proof.
  apply (load_series_missing_file Example.no_elapse Example.fs_exists Example.fs_read_csv
           (path_join RAW_DIR "spy.csv") (Some "spy_price") []); reflexivity.
Defined.

(** A series the loader returns comes from a frame that [read_csv] returned
    with exactly one data column: it has one entry per row of that frame, in
    the order of the rows, and it is named [value_col], or as the column when
    [value_col] is None or empty. *)
Theorem load_series_single_column {W : Type} (elapse : Z → W → W)
    (path_exists : Path → W → bool) (read_csv : Path → IO W DataFrame)
    (path : Path) (value_col : option string) (w w' : W) (s : Series) :
  _load_series elapse path_exists read_csv path value_col w = (Ok (Some s), w') →
  ∃ df w0, read_csv path w0 = (Ok df, w') ∧
    length (columns df) = 1%nat ∧
    sname s = or_name value_col (hd "" (columns df)) ∧
    index_of s = (rows df).*1 ∧
    length (items s) = length (rows df) ∧
    (∀ c, value_col = Some c → c ≠ "" → sname s = c).
Proof.
  intros H. apply _load_series_Ok_inv in H as (df & w0 & Hread & Hlen & ->).
  exists df, w0. split; [done|]. split; [done|]. split; [done|]. simpl.
  split; [|split].
  - unfold index_of. simpl. by rewrite <- list_fmap_compose.
  - by rewrite length_fmap.
  - intros c -> Hc. simpl. by apply String.eqb_neq in Hc as ->.
Qed.

(** The loader on a directory that holds a valid [vix.csv]. *)
Lemma load_series_single_column_witness :
  let fs := [("vix.csv", Example.Csv (Example.one_column "Close" [(1, 32); (2, 10)]))] in
  ∃ df w0, Example.fs_read_csv (path_join RAW_DIR "vix.csv") w0 = (Ok df, fs) ∧
    length (columns df) = 1%nat ∧
    sname (Example.series "vix" [(1, 32); (2, 10)]) = or_name (Some "vix") (hd "" (columns df)) ∧
    index_of (Example.series "vix" [(1, 32); (2, 10)]) = (rows df).*1 ∧
    length (items (Example.series "vix" [(1, 32); (2, 10)])) = length (rows df) ∧
    (∀ c, Some "vix" = Some c → c ≠ "" → sname (Example.series "vix" [(1, 32); (2, 10)]) = c).
Proof.
  intros fs.
  apply (load_series_single_column Example.no_elapse Example.fs_exists Example.fs_read_csv
           (path_join RAW_DIR "vix.csv") (Some "vix") fs fs).
  reflexivity.
Defined.

Section ResolutionShape.

Context {W : Type}.
Variable elapse : Z → W → W.
Variable path_exists : Path → W → bool.
Variable read_csv : Path → IO W DataFrame.

Lemma _load_series_Ok_name path c w r w' :
  c ≠ "" →
  _load_series elapse path_exists read_csv path (Some c) w = (Ok r, w') →
  ∃ s, r = Some s ∧ sname s = c.
Proof.
  intros Hc Hload. destruct r as [s|]; [|by apply _load_series_not_none in Hload].
  exists s. split; [done|].
  apply _load_series_Ok_inv in Hload as (df & w0 & _ & _ & ->). simpl.
  by apply String.eqb_neq in Hc as ->.
Qed.

(** A required dataset that has no entry yet and resolves has its series,
    named after its column, stored under its key. *)
Lemma resolve_required_Ok key cfg series_dict w sd' w' :
  required cfg = true → col cfg ≠ "" → dict_mem series_dict key = false →
  resolve elapse path_exists read_csv key cfg series_dict w = (Ok sd', w') →
  ∃ s, sd' = dict_set series_dict key (Some s) ∧ sname s = col cfg.
Proof.
  intros Hreq Hcol Hmem. unfold resolve. rewrite Hreq.
  destruct (src cfg) as [file|files].
  - destruct (_load_series _ _ _ _ _ w) as [[r|e] w1] eqn:Hload.
    + intros [= <- <-]. apply _load_series_Ok_name in Hload as (s & -> & Hs); [|done].
      by exists s.
    + by destruct (is_FileNotFoundError e).
  - destruct (try_files_cases elapse path_exists read_csv key (col cfg) files series_dict w)
      as [(pre & f & post & s & w1 & w2 & _ & _ & Hf & ->)
         |[(pre & f & post & e & w1 & w2 & _ & _ & _ & _ & ->)
          |(w1 & _ & ->)]]; [|done|by rewrite Hmem].
    rewrite dict_mem_set. simpl. intros [= <- <-].
    apply _load_series_Ok_name in Hf as (s' & [= <-] & Hs); [|done]. by exists s.
Qed.

End ResolutionShape.

Lemma load_all_shape {W : Type} (elapse : Z → W → W)
    (path_exists : Path → W → bool) (read_csv : Path → IO W DataFrame)
    (w w' : W) (series_dict : dict) :
  load_all elapse path_exists read_csv data_sources [] w = (Ok series_dict, w') →
  ∃ spy vix fg,
    series_dict = [("spy", Some spy); ("vix", Some vix); ("cnn_fg", Some fg)] ∧
    sname spy = "spy_price" ∧ sname vix = "vix" ∧ sname fg = "cnn_fg" ∧
    dict_values series_dict = [Some spy; Some vix; Some fg].
Proof.
  unfold data_sources. simpl.
  destruct (resolve _ _ _ "spy" _ [] w) as [[sd1|e] w1] eqn:H1; [|done].
  apply resolve_required_Ok in H1 as (spy & -> & Hspy); [|done..].
  destruct (resolve _ _ _ "vix" _ _ w1) as [[sd2|e] w2] eqn:H2; [|done].
  apply resolve_required_Ok in H2 as (vix & -> & Hvix); [|done..].
  destruct (resolve _ _ _ "cnn_fg" _ _ w2) as [[sd3|e] w3] eqn:H3; [|done].
  apply resolve_required_Ok in H3 as (fg & -> & Hfg); [|done..].
  intros [= <- <-]. by exists spy, vix, fg.
Qed.

(** When the three datasets of [data_sources] resolve, [series_dict] holds
    exactly the keys spy, vix and cnn_fg, in this order, each with a series
    named after its column: spy_price, vix and cnn_fg.  These are, in this
    order, the columns handed to the merge. *)
Theorem load_all_data_sources {W : Type} (elapse : Z → W → W)
    (path_exists : Path → W → bool) (read_csv : Path → IO W DataFrame)
    (w w' : W) (series_dict : dict) :
  load_all elapse path_exists read_csv data_sources [] w = (Ok series_dict, w') →
  ∃ spy vix fg,
    series_dict = [("spy", Some spy); ("vix", Some vix); ("cnn_fg", Some fg)] ∧
    sname spy = "spy_price" ∧ sname vix = "vix" ∧ sname fg = "cnn_fg" ∧
    dict_values series_dict = [Some spy; Some vix; Some fg].
Proof. apply load_all_shape. Qed.

(** Resolution on a directory with the price files and the second of the
    three candidates for the fear index. *)
Lemma load_all_data_sources_witness :
  let fs := [("spy.csv", Example.Csv (Example.one_column "Adj Close" [(1, 470); (2, 480)]));
             ("vix.csv", Example.Csv (Example.one_column "Close" [(1, 32); (2, 10)]));
             ("cnn_fear_greed_current.csv",
              Example.Csv (Example.one_column "CNN_FG" [(1, 15); (2, 85)]))] in
  let series_dict := [("spy", Some (Example.series "spy_price" [(1, 470); (2, 480)]));
                      ("vix", Some (Example.series "vix" [(1, 32); (2, 10)]));
                      ("cnn_fg", Some (Example.series "cnn_fg" [(1, 15); (2, 85)]))] in
  ∃ spy vix fg,
    series_dict = [("spy", Some spy); ("vix", Some vix); ("cnn_fg", Some fg)] ∧
    sname spy = "spy_price" ∧ sname vix = "vix" ∧ sname fg = "cnn_fg" ∧
    dict_values series_dict = [Some spy; Some vix; Some fg].
Proof.
  intros fs series_dict.
  apply (load_all_data_sources Example.no_elapse Example.fs_exists Example.fs_read_csv
           fs fs series_dict).
  reflexivity.
Defined.


(* ------------------------------------------------------------------ *)
(** ** What the pipeline returns *)

Lemma map_result_Forall2 {A B : Type} (f : A → result B) l : ∀ ys,
  map_result f l = Ok ys → Forall2 (λ x y, f x = Ok y) l ys.
Proof.
  induction l as [|x l IH]; intros ys; simpl.
  - intros [= <-]. constructor.
  - destruct (f x) as [y|e] eqn:Hy; [|done].
    destruct (map_result f l) as [ys'|e]; [|done].
    intros [= <-]. constructor; [done | by apply IH].
Qed.

Lemma concat_inner_columns objs df :
  concat_inner objs = Ok df → columns df = sname <$> omap id objs.
Proof.
  unfold concat_inner. destruct (omap id objs) as [|s ss] eqn:E; [by destruct objs|].
  destruct (map_result _ _); [|done]. by intros [= <-].
Qed.

(** A frame that passes validation has both columns and breaks no range,
    and what was logged for it are warnings. *)
Lemma validate_Ok_inv df :
  (_validate_data df).2 = Ok tt →
  "vix" ∈ columns df ∧ "cnn_fg" ∈ columns df ∧
  (¬ ∃ r, r ∈ rows df ∧ range_violation df r) ∧
  Forall (λ rec : LogRecord, rec.1 = WARNING) (_validate_data df).1.
Proof.
  intros Hok.
  destruct (decide ("vix" ∈ columns df)) as [Hvix|Hvix].
  2:{ unfold _validate_data in Hok. by rewrite (column_missing df "vix" Hvix) in Hok. }
  destruct (decide ("cnn_fg" ∈ columns df)) as [Hfg|Hfg].
  2:{ unfold _validate_data in Hok. rewrite (column_in df "vix" Hvix) in Hok.
      destruct (existsb _ _); [done|].
      by rewrite (column_missing df "cnn_fg" Hfg) in Hok. }
  split; [done|]. split; [done|].
  rewrite (_validate_data_cases df Hvix Hfg) in Hok |- *.
  pose proof (range_violation_flags df) as Hflags.
  pose proof (missing_log_warnings df) as Hwarn.
  destruct (existsb _ (cell df "vix" <$> rows df)); [done|].
  destruct (existsb _ (cell df "cnn_fg" <$> rows df) || existsb _ _); [done|].
  split; [intros H; by apply Hflags in H|].
  destruct (fgt _ _); simpl; [|done].
  apply Forall_app. split; [done|]. by repeat constructor.
Qed.

(** The steps behind a run of [process] that returns a frame. *)
Lemma process_Ok_inv objs log ldf :
  process objs = (log, Ok ldf) →
  ∃ merged,
    concat_inner objs = Ok merged ∧ frame ldf = sort_index merged ∧
    (_validate_data (frame ldf)).2 = Ok tt ∧
    Forall2 (λ r s, generate_signal default (row_of (frame ldf) r) = Ok s)
      (rows (frame ldf)) (signals ldf) ∧
    log = (INFO, MergedShape (length (rows (frame ldf))) (length (columns (frame ldf))))
            :: (_validate_data (frame ldf)).1 ++ _print_signal_stats ldf.
Proof.
  unfold process. destruct (concat_inner objs) as [merged|e]; [|done].
  remember (sort_index merged) as df eqn:Hdf.
  destruct (_validate_data df) as [findings [[]|e]] eqn:Hval; [|done].
  unfold apply_rows.
  destruct (rows df) as [|r rs] eqn:Hrows.
  - destruct (generate_signal default _) as [s|e] eqn:Hprobe.
    + simpl. intros [= <- <-]. exists merged. simpl. rewrite Hval, Hrows.
      split; [done|]. split; [done|]. split; [done|]. split; [constructor | done].
    + destruct (is_Exception e); [|done]. simpl.
      destruct (columns df) as [|c [|c' cs]] eqn:Hc; [done| |done].
      intros [= <- <-]. exists merged. simpl. rewrite Hval, Hrows, Hc.
      split; [done|]. split; [done|]. split; [done|]. split; [constructor | done].
  - rewrite <- Hrows.
    destruct (map_result _ _) as [l|e] eqn:Hmap; [|done]. simpl.
    intros [= <- <-]. exists merged. simpl. rewrite Hval.
    split; [done|]. split; [done|]. split; [done|]. split; [|done].
    apply map_result_Forall2 in Hmap. by apply Forall2_fmap_l in Hmap.
Qed.

Lemma process_Ok_facts objs log ldf :
  process objs = (log, Ok ldf) →
  columns (frame ldf) = sname <$> omap id objs ∧
  StronglySorted Z.le (index (frame ldf)) ∧
  "vix" ∈ columns (frame ldf) ∧ "cnn_fg" ∈ columns (frame ldf) ∧
  (¬ ∃ r, r ∈ rows (frame ldf) ∧ range_violation (frame ldf) r) ∧
  Forall2 (λ r s, generate_signal default (row_of (frame ldf) r) = Ok s)
    (rows (frame ldf)) (signals ldf) ∧
  Forall (λ rec : LogRecord, rec.1 ≠ ERROR) log.
Proof.
  intros (merged & Hm & Hf & Hv & Hl & ->)%process_Ok_inv.
  destruct (validate_Ok_inv _ Hv) as (Hvix & Hfg & Hno & Hwarn).
  split; [rewrite Hf; simpl; by apply concat_inner_columns|].
  split; [rewrite Hf; apply sort_index_sorted|].
  split; [done|]. split; [done|]. split; [done|]. split; [done|].
  constructor; [done|]. apply Forall_app. split.
  - eapply Forall_impl; [exact Hwarn|]. intros rec Hrec. by rewrite Hrec.
  - unfold _print_signal_stats. destruct (avg_hold _); by repeat constructor.
Qed.

(** A frame that steps 3 to 6 return has one column per series that was
    merged; its rows are in ascending order of date; it has the [vix] and
    [cnn_fg] columns and no row of it breaks a range; it carries one label
    per row, the label the default generator gives that row; and no ERROR
    record was logged on the way. *)
Theorem process_output (objs : list (option Series)) (log : list LogRecord)
    (ldf : LabeledFrame) :
  process objs = (log, Ok ldf) →
  columns (frame ldf) = sname <$> omap id objs ∧
  StronglySorted Z.le (index (frame ldf)) ∧
  "vix" ∈ columns (frame ldf) ∧ "cnn_fg" ∈ columns (frame ldf) ∧
  (¬ ∃ r, r ∈ rows (frame ldf) ∧ range_violation (frame ldf) r) ∧
  Forall2 (λ r s, generate_signal default (row_of (frame ldf) r) = Ok s)
    (rows (frame ldf)) (signals ldf) ∧
  Forall (λ rec : LogRecord, rec.1 ≠ ERROR) log.
Proof. apply process_Ok_facts. Qed.

(** The output of the end-to-end example, with its dates given in descending
    order. *)
Lemma process_output_witness :
  let objs := [Some (Example.series "spy_price" [(2, 480); (1, 470)]);
               Some (Example.series "vix" [(2, 10); (1, 32)]);
               Some (Example.series "cnn_fg" [(2, 85); (1, 15)])] in
  let ldf := {| frame := {| columns := ["spy_price"; "vix"; "cnn_fg"];
                            rows := [(Example.day 1, [of_Z 470; of_Z 32; of_Z 15]);
                                     (Example.day 2, [of_Z 480; of_Z 10; of_Z 85])] |};
                signals := [BUY; SELL] |} in
  columns (frame ldf) = sname <$> omap id objs ∧
  StronglySorted Z.le (index (frame ldf)) ∧
  "vix" ∈ columns (frame ldf) ∧ "cnn_fg" ∈ columns (frame ldf) ∧
  (¬ ∃ r, r ∈ rows (frame ldf) ∧ range_violation (frame ldf) r) ∧
  Forall2 (λ r s, generate_signal default (row_of (frame ldf) r) = Ok s)
    (rows (frame ldf)) (signals ldf) ∧
  Forall (λ rec : LogRecord, rec.1 ≠ ERROR) [(INFO, MergedShape 2 3); (INFO, SignalCounts)].
Proof.
  intros objs ldf.
  apply (process_output objs [(INFO, MergedShape 2 3); (INFO, SignalCounts)] ldf).
  reflexivity.
Defined.

(** When [main] returns normally, it has written one frame, to
    [signals.csv] in the processed directory: the frame has the columns
    spy_price, vix and cnn_fg, in this order; its rows are in ascending order
    of date; none of them breaks a range; and each carries the label the
    default generator gives it. *)
Theorem main_writes_labelled_frame {W : Type} (elapse : Z → W → W)
    (path_exists : Path → W → bool) (read_csv : Path → IO W DataFrame)
    (to_csv : LabeledFrame → Path → IO W unit)
    (w w2 : W) (log : list LogRecord) :
  main elapse path_exists read_csv to_csv w = ((log, Ok tt), w2) →
  ∃ w1 ldf,
    to_csv ldf (path_join PROCESSED_DIR "signals.csv") w1 = (Ok tt, w2) ∧
    columns (frame ldf) = ["spy_price"; "vix"; "cnn_fg"] ∧
    StronglySorted Z.le (index (frame ldf)) ∧
    (¬ ∃ r, r ∈ rows (frame ldf) ∧ range_violation (frame ldf) r) ∧
    Forall2 (λ r s, generate_signal default (row_of (frame ldf) r) = Ok s)
      (rows (frame ldf)) (signals ldf).
Proof.
  unfold main.
  destruct (load_all _ _ _ data_sources [] w) as [[sd|e] w1] eqn:Hload; [|done].
  destruct (process (dict_values sd)) as [log' [ldf|e]] eqn:Hproc; [|done].
  destruct (to_csv ldf _ w1) as [[[]|e] w2'] eqn:Hcsv; [|done].
  intros [= <- <-]. exists w1, ldf. split; [done|].
  apply load_all_shape in Hload as (spy & vix & fg & _ & Hspy & Hvix & Hfg & Hvals).
  apply process_Ok_facts in Hproc as (Hcols & Hsorted & _ & _ & Hno & Hlabels & _).
  rewrite Hvals in Hcols. simpl in Hcols. rewrite Hspy, Hvix, Hfg in Hcols.
  done.
Qed.

(** [main] on a directory with the three files and a writer that always
    succeeds. *)
Lemma main_writes_labelled_frame_witness :
  let fs := [("spy.csv", Example.Csv (Example.one_column "Adj Close" [(1, 470); (2, 480)]));
             ("vix.csv", Example.Csv (Example.one_column "Close" [(1, 32); (2, 10)]));
             ("fear_greed_historical.csv",
              Example.Csv (Example.one_column "CNN_FG" [(1, 15); (2, 85)]))] in
  let to_csv := λ (_ : LabeledFrame) (_ : Path) (w : Example.FS), (Ok tt, w) in
  ∃ w1 ldf,
    to_csv ldf (path_join PROCESSED_DIR "signals.csv") w1 = (Ok tt, fs) ∧
    columns (frame ldf) = ["spy_price"; "vix"; "cnn_fg"] ∧
    StronglySorted Z.le (index (frame ldf)) ∧
    (¬ ∃ r, r ∈ rows (frame ldf) ∧ range_violation (frame ldf) r) ∧
    Forall2 (λ r s, generate_signal default (row_of (frame ldf) r) = Ok s)
      (rows (frame ldf)) (signals ldf).
Proof.
  intros fs to_csv.
  apply (main_writes_labelled_frame Example.no_elapse Example.fs_exists
           Example.fs_read_csv to_csv fs fs
           [(INFO, MergedShape 2 3); (INFO, SignalCounts)]).
  reflexivity.
Defined.

(* ------------------------------------------------------------------ *)
(** ** The cells of the merged frame *)

Lemma series_get_elem its t : t ∈ its.*1 → (t, series_get its t) ∈ its.
Proof.
  induction its as [|[t' v] its IH]; intros Ht; simpl; [by inv Ht|].
  destruct (bool_decide (t' = t)) eqn:E.
  - apply bool_decide_eq_true in E as ->. by left.
  - apply bool_decide_eq_false in E. right. apply IH.
    by apply elem_of_cons in Ht as [->|Ht].
Qed.

Lemma series_get_self its : NoDup its.*1 → its.*2 = series_get its <$> its.*1.
Proof.
  induction its as [|[t v] its IH]; intros Hnd; [done|]. csimpl in *.
  apply NoDup_cons in Hnd as [Ht Hnd].
  rewrite bool_decide_eq_true_2 by done. f_equal. rewrite (IH Hnd).
  apply Forall_fmap_ext, Forall_forall. intros t' Ht'.
  rewrite bool_decide_eq_false_2; [done|]. by intros ->.
Qed.

Lemma reindex_lookup s idx :
  NoDup (index_of s) → reindex s idx = Ok (series_get (items s) <$> idx).
Proof.
  intros Hnd. unfold reindex, has_duplicates.
  destruct (bool_decide (index_of s = idx)) eqn:E.
  - apply bool_decide_eq_true in E as <-. f_equal. by apply series_get_self.
  - by rewrite bool_decide_eq_true_2.
Qed.

Lemma map_result_fmap {A B : Type} (f : A → result B) (g : A → B) l :
  Forall (λ x, f x = Ok (g x)) l → map_result f l = Ok (g <$> l).
Proof.
  induction 1 as [|x l Hx _ IH]; simpl; [done|]. by rewrite Hx, IH.
Qed.

Lemma build_rows_lookup {A : Type} (g : A → Timestamp → float) (ss : list A) idx :
  build_rows idx ((λ s, g s <$> idx) <$> ss) = (λ t, (t, (λ s, g s t) <$> ss)) <$> idx.
Proof.
  induction idx as [|t idx IH]; [done|]. csimpl. f_equal.
  - f_equal. rewrite <- list_fmap_compose. by apply list_fmap_ext.
  - rewrite <- IH. f_equal. rewrite <- list_fmap_compose. by apply list_fmap_ext.
Qed.

(** The frame of the inner concat, written out. *)
Lemma concat_inner_rows ss :
  ss ≠ [] → Forall (λ s, NoDup (index_of s)) ss →
  concat_inner (Some <$> ss) =
    Ok {| columns := sname <$> ss;
          rows := (λ t, (t, (λ s, series_get (items s) t) <$> ss)) <$> combined_index ss |}.
Proof.
  intros Hne Hnd. unfold concat_inner. rewrite omap_id_Some.
  destruct ss as [|s rest] eqn:Hss; [done|]. rewrite <- Hss in *.
  rewrite (map_result_fmap _ (λ s, series_get (items s) <$> combined_index ss)).
  - by rewrite build_rows_lookup.
  - eapply Forall_impl; [exact Hnd|]. intros x Hx. by apply reindex_lookup.
Qed.

(** For series without duplicate dates, at least one of them, every row of
    the sorted merged frame holds, column by column in the order of the
    series, the value each series has at the date of the row: the merge
    moves no value to another date or another column. *)
Theorem merged_cells (ss : list Series) :
  ss ≠ [] → Forall (λ s, NoDup (index_of s)) ss →
  ∃ df, concat_inner (Some <$> ss) = Ok df ∧
    columns (sort_index df) = sname <$> ss ∧
    ∀ r, r ∈ rows (sort_index df) →
      r.2 = (λ s, series_get (items s) r.1) <$> ss ∧
      ∀ s, s ∈ ss → (r.1, series_get (items s) r.1) ∈ items s.
Proof.
  intros Hne Hnd. eexists. split; [by apply concat_inner_rows|].
  split; [done|]. intros r Hr. unfold sort_index in Hr. simpl in Hr.
  rewrite merge_sort_Permutation in Hr.
  apply list_elem_of_fmap in Hr as (t & -> & Ht). simpl. split; [done|].
  intros s Hs. apply series_get_elem.
  by apply (elem_of_combined_index ss t Hne).
Qed.

(** The merge of three series whose dates come in different orders. *)
Lemma merged_cells_witness :
  let ss := [Example.series "spy_price" [(3, 1); (1, 470); (2, 480)];
             Example.series "vix" [(2, 10); (1, 32)];
             Example.series "cnn_fg" [(1, 15); (2, 85)]] in
  ∃ df, concat_inner (Some <$> ss) = Ok df ∧
    columns (sort_index df) = sname <$> ss ∧
    ∀ r, r ∈ rows (sort_index df) →
      r.2 = (λ s, series_get (items s) r.1) <$> ss ∧
      ∀ s, s ∈ ss → (r.1, series_get (items s) r.1) ∈ items s.
Proof.
  intros ss. apply (merged_cells ss).
  - discriminate.
  - apply (bool_decide_unpack _). vm_compute. reflexivity.
Defined.

(* ------------------------------------------------------------------ *)
(** ** The fetcher *)

(** With a delay that [time.sleep] accepts, an exception the wrapper raises
    is one the wrapped function raised. *)
Lemma wrapper_loop_Raise_inv {W A : Type} (elapse : Z → W → W) (max_retries delay : Z)
    (func : IO W A) (attempts : list Z) : ∀ w e w',
  0 ≤ delay →
  wrapper_loop elapse max_retries delay func attempts w = (Raise e, w') →
  ∃ w0, func w0 = (Raise e, w').
Proof.
  induction attempts as [|attempt rest IH]; intros w e w' Hdelay Hrun; simpl in Hrun; [done|].
  destruct (func w) as [[v0|e0] w1] eqn:Hf; [done|].
  destruct (is_Exception e0).
  - destruct (attempt =? max_retries - 1).
    + injection Hrun as -> ->. by exists w.
    + unfold time_sleep in Hrun.
      assert ((delay <? 0) = false) as Hd by (apply Z.ltb_ge; lia).
      rewrite Hd in Hrun. by apply IH in Hrun.
  - injection Hrun as -> ->. by exists w.
Qed.

Lemma retry_on_error_not_none {W A : Type} (elapse : Z → W → W) (max_retries delay : Z)
    (func : IO W A) (w w' : W) :
  1 ≤ max_retries → retry_on_error elapse max_retries delay func w ≠ (Ok None, w').
Proof.
  intros Hmax Heq.
  destruct (retry_on_error_traced elapse max_retries delay func w)
    as (r & w1 & tr & _ & Hu & Hrun); [lia|].
  rewrite Heq in Hu. injection Hu as <- <-.
  inversion Hrun; simplify_eq. lia.
Qed.

Section FetcherFacts.

Context {W : Type}.
Variable elapse : Z → W → W.
Variable RAW_DIR : string.
Variable to_csv : Series → Path → IO W unit.
Variable fetch_yfinance_series : string → IO W (option Series).
Variable fetch_alternative_fear_greed : IO W (option Series).
Variable fetch_cnn_fear_greed : IO W (option Series).

Local Abbreviation save_series := (DataFetcher.save_series elapse RAW_DIR to_csv).
Local Abbreviation fetch_sentiment :=
  (DataFetcher.fetch_sentiment elapse RAW_DIR to_csv
     fetch_alternative_fear_greed fetch_cnn_fear_greed).

Lemma save_series_body_Ok_inv series filename w p w' :
  DataFetcher.save_series_body elapse RAW_DIR to_csv series filename w = (Ok p, w') →
  p = path_join RAW_DIR filename ∧
  ∃ s w0, series = Some s ∧ to_csv s (path_join RAW_DIR filename) w0 = (Ok tt, w').
Proof.
  unfold DataFetcher.save_series_body, DataFetcher.series_to_csv.
  destruct series as [s|]; [|done].
  destruct (to_csv s _ w) as [[[]|e] w1] eqn:H1.
  - intros [= <- <-]. split; [done|]. by exists s, w.
  - destruct (is_PermissionError e); [|done]. unfold time_sleep. simpl.
    destruct (to_csv s _ (elapse 1 w1)) as [[[]|e'] w3] eqn:H2; [|done].
    intros [= <- <-]. split; [done|]. by exists s, (elapse 1 w1).
Qed.

Lemma save_series_body_Raise_inv series filename w e w' :
  (∀ s p w e w', to_csv s p w = (Raise e, w') → is_Exception e = true) →
  DataFetcher.save_series_body elapse RAW_DIR to_csv series filename w = (Raise e, w') →
  is_Exception e = true.
Proof.
  intros Hcsv. unfold DataFetcher.save_series_body, DataFetcher.series_to_csv.
  destruct series as [s|]; [|by intros [= <- <-]].
  destruct (to_csv s _ w) as [[[]|e0] w1] eqn:H1; [done|].
  destruct (is_PermissionError e0) eqn:Hp.
  - unfold time_sleep. simpl.
    destruct (to_csv s _ (elapse 1 w1)) as [[[]|e'] w3] eqn:H2; [done|].
    intros [= <- <-]. by eapply Hcsv.
  - intros [= <- <-]. by eapply Hcsv.
Qed.

Lemma save_series_Raise_inv series filename w e w' :
  (∀ s p w e w', to_csv s p w = (Raise e, w') → is_Exception e = true) →
  save_series series filename w = (Raise e, w') → is_Exception e = true.
Proof.
  intros Hcsv Hsave. unfold DataFetcher.save_series, retry_on_error in Hsave.
  apply wrapper_loop_Raise_inv in Hsave as (w0 & Hbody); [|lia].
  by eapply save_series_body_Raise_inv.
Qed.

(** When neither a fetcher of the fear index nor a write raises anything but
    an Exception, step 3 of [main] returns normally from every world. *)
Lemma fetch_sentiment_returns w :
  (∀ s p w e w', to_csv s p w = (Raise e, w') → is_Exception e = true) →
  (∀ w e w', fetch_alternative_fear_greed w = (Raise e, w') → is_Exception e = true) →
  (∀ w e w', fetch_cnn_fear_greed w = (Raise e, w') → is_Exception e = true) →
  ∃ w', fetch_sentiment w = (Ok tt, w').
Proof.
  intros Hcsv Halt Hcnn.
  assert (Hfallback : ∀ w1, ∃ w',
    catch_Exception
      (bind fetch_cnn_fear_greed (λ cnn,
         bind (save_series cnn "cnn_fear_greed_current.csv") (λ _, ret tt)))
      (λ _, ret tt) w1 = (Ok tt, w')).
  { intros w1. unfold catch_Exception, bind, ret.
    destruct (fetch_cnn_fear_greed w1) as [[cnn|e] w2] eqn:Hf.
    - destruct (save_series cnn _ w2) as [[p|e] w3] eqn:Hs; [by eexists|].
      rewrite (save_series_Raise_inv _ _ _ _ _ Hcsv Hs). by eexists.
    - rewrite (Hcnn _ _ _ Hf). by eexists. }
  unfold DataFetcher.fetch_sentiment.
  unfold catch_Exception at 1. unfold bind at 1.
  destruct (fetch_alternative_fear_greed w) as [[cnn|e] w1] eqn:Hf.
  - unfold bind at 1.
    destruct (save_series cnn _ w1) as [[p|e] w2] eqn:Hs; [by eexists|].
    rewrite (save_series_Raise_inv _ _ _ _ _ Hcsv Hs). apply Hfallback.
  - rewrite (Halt _ _ _ Hf). apply Hfallback.
Qed.

End FetcherFacts.

(** Whenever [save_series] returns, it returns the path of the file under
    [RAW_DIR], never None, its series was a series and not None, and the
    write that produced the file is the last thing it did. *)
Theorem save_series_returns_path {W : Type} (elapse : Z → W → W) (RAW_DIR : string)
    (to_csv : Series → Path → IO W unit)
    (series : option Series) (filename : string) (w w' : W) (r : option Path) :
  DataFetcher.save_series elapse RAW_DIR to_csv series filename w = (Ok r, w') →
  r = Some (path_join RAW_DIR filename) ∧
  ∃ s w0, series = Some s ∧ to_csv s (path_join RAW_DIR filename) w0 = (Ok tt, w').
Proof.
  intros Hsave. destruct r as [p|].
  2:{ by apply retry_on_error_not_none in Hsave. }
  unfold DataFetcher.save_series, retry_on_error in Hsave.
  apply wrapper_loop_Ok_inv in Hsave as (w0 & Hbody).
  apply save_series_body_Ok_inv in Hbody as [-> Hcsv]. by split.
Qed.

(** Saving on a world that counts the writes and refuses the first one with
    a PermissionError. *)
Lemma save_series_returns_path_witness :
  let to_csv := λ (_ : Series) (p : Path) (writes : nat),
    (if (writes <? 1)%nat then Raise (PermissionError (path_str p)) else Ok tt, S writes) in
  Some (path_join "data/raw" "vix.csv") = Some (path_join "data/raw" "vix.csv") ∧
  ∃ s w0, Some (Example.series "VIX" [(1, 32)]) = Some s ∧
          to_csv s (path_join "data/raw" "vix.csv") w0 = (Ok tt, 2%nat).
Proof.
  intros to_csv.
  apply (save_series_returns_path Example.no_elapse "data/raw" to_csv
           (Some (Example.series "VIX" [(1, 32)])) "vix.csv" 0%nat 2%nat).
  reflexivity.
Defined.

(** No Exception leaves [main]: what it raises is the SystemExit it makes of
    an Exception, or an exception outside the Exception class that passed
    through. *)
Theorem fetcher_main_raises_no_Exception {W : Type} (elapse : Z → W → W)
    (RAW_DIR : string) (to_csv : Series → Path → IO W unit)
    (fetch_yfinance_series : string → IO W (option Series))
    (fetch_alternative_fear_greed fetch_cnn_fear_greed : IO W (option Series))
    (w w' : W) (e : exn) :
  DataFetcher.main elapse RAW_DIR to_csv fetch_yfinance_series
    fetch_alternative_fear_greed fetch_cnn_fear_greed w = (Raise e, w') →
  is_Exception e = false.
Proof.
  unfold DataFetcher.main, catch_Exception.
  destruct (bind _ _ w) as [[[]|e0] w1]; [done|].
  destruct (is_Exception e0) eqn:He.
  - unfold raise. by intros [= <- <-].
  - by intros [= <- <-].
Qed.

(** [main] when the first download fails. *)
Lemma fetcher_main_raises_no_Exception_witness :
  is_Exception DataFetcher.SystemExit1 = false.
Proof.
  apply (fetcher_main_raises_no_Exception Example.no_elapse "data/raw"
           (λ _ _ (w : unit), (Ok tt, w))
           (λ _ (w : unit), (Raise (ValueError "No data returned"), w))
           (λ w : unit, (Raise (OtherError "network"), w))
           (λ w : unit, (Raise (OtherError "network"), w))
           tt tt DataFetcher.SystemExit1).
  reflexivity.
Defined.

(** Once VIX and SPY are downloaded and saved, [main] returns normally
    whatever becomes of the fear index, as long as its fetchers and the
    writes raise nothing but Exceptions: a failure of Alternative.me, of
    CNN, or of saving either series is not fatal. *)
Theorem fetcher_main_survives_sentiment_failure {W : Type} (elapse : Z → W → W)
    (RAW_DIR : string) (to_csv : Series → Path → IO W unit)
    (fetch_yfinance_series : string → IO W (option Series))
    (fetch_alternative_fear_greed fetch_cnn_fear_greed : IO W (option Series))
    (w w1 w2 w3 w4 : W) (vix spy : option Series) (vix_path spy_path : option Path) :
  fetch_yfinance_series "^VIX" w = (Ok vix, w1) →
  fetch_yfinance_series "SPY" w1 = (Ok spy, w2) →
  DataFetcher.save_series elapse RAW_DIR to_csv vix "vix.csv" w2 = (Ok vix_path, w3) →
  DataFetcher.save_series elapse RAW_DIR to_csv spy "spy.csv" w3 = (Ok spy_path, w4) →
  (∀ s p w e w', to_csv s p w = (Raise e, w') → is_Exception e = true) →
  (∀ w e w', fetch_alternative_fear_greed w = (Raise e, w') → is_Exception e = true) →
  (∀ w e w', fetch_cnn_fear_greed w = (Raise e, w') → is_Exception e = true) →
  ∃ w', DataFetcher.main elapse RAW_DIR to_csv fetch_yfinance_series
          fetch_alternative_fear_greed fetch_cnn_fear_greed w = (Ok tt, w').
Proof.
  intros Hvix Hspy Hsv Hss Hcsv Halt Hcnn.
  destruct (fetch_sentiment_returns elapse RAW_DIR to_csv
              fetch_alternative_fear_greed fetch_cnn_fear_greed w4 Hcsv Halt Hcnn)
    as [w' Hs].
  exists w'. unfold DataFetcher.main, catch_Exception, bind.
  by rewrite Hvix, Hspy, Hsv, Hss, Hs.
Qed.

(** [main] on a world where the prices download and save, and both sources
    of the fear index are down. *)
Lemma fetcher_main_survives_sentiment_failure_witness :
  ∃ w', DataFetcher.main Example.no_elapse "data/raw"
          (λ _ _ (w : unit), (Ok tt, w))
          (λ ticker (w : unit), (Ok (Some (Example.series ticker [(1, 32)])), w))
          (λ w : unit, (Raise (OtherError "network"), w))
          (λ w : unit, (Raise (OtherError "network"), w)) tt = (Ok tt, w').
Proof.
  apply (fetcher_main_survives_sentiment_failure Example.no_elapse "data/raw"
           (λ _ _ (w : unit), (Ok tt, w))
           (λ ticker (w : unit), (Ok (Some (Example.series ticker [(1, 32)])), w))
           (λ w : unit, (Raise (OtherError "network"), w))
           (λ w : unit, (Raise (OtherError "network"), w))
           tt tt tt tt tt
           (Some (Example.series "^VIX" [(1, 32)])) (Some (Example.series "SPY" [(1, 32)]))
           (Some (path_join "data/raw" "vix.csv")) (Some (path_join "data/raw" "spy.csv")));
    try reflexivity.
  - intros s p w e w' H. discriminate.
  - intros w e w' [= <- _]. reflexivity.
  - intros w e w' [= <- _]. reflexivity.
Defined.


(* ------------------------------------------------------------------ *)
(** ** The records of the Alternative.me response *)

Section RecordsFacts.

Import AlternativeMe.

Variable py_int : string → option Z.

Lemma records_set_keys records d v :
  (records_set records d v).*1 =
    if bool_decide (d ∈ records.*1) then records.*1 else records.*1 ++ [d].
Proof.
  induction records as [|[d' v'] records IH]; [done|]. simpl.
  destruct (bool_decide (d' = d)) eqn:E.
  - apply bool_decide_eq_true in E as ->. simpl.
    rewrite bool_decide_eq_true_2; [done | by left].
  - apply bool_decide_eq_false in E. csimpl. rewrite IH.
    destruct (bool_decide (d ∈ records.*1)) eqn:E'.
    + apply bool_decide_eq_true in E'. rewrite bool_decide_eq_true_2; [done | by right].
    + apply bool_decide_eq_false in E'. rewrite bool_decide_eq_false_2; [done|].
      by intros [->|?]%elem_of_cons.
Qed.

Lemma records_set_NoDup records d v :
  NoDup records.*1 → NoDup (records_set records d v).*1.
Proof.
  intros Hnd. rewrite records_set_keys.
  destruct (bool_decide (d ∈ records.*1)) eqn:E; [done|].
  apply bool_decide_eq_false in E. apply NoDup_app. split; [done|].
  split; [|apply NoDup_singleton].
  intros x Hx ->%list_elem_of_singleton. done.
Qed.

Lemma elem_of_records_set records d v d' v' :
  NoDup records.*1 →
  (d', v') ∈ records_set records d v ↔
  (d' = d ∧ v' = v) ∨ (d' ≠ d ∧ (d', v') ∈ records).
Proof.
  induction records as [|[d0 v0] records IH]; intros Hnd; simpl.
  - rewrite list_elem_of_singleton. split.
    + intros [= -> ->]. by left.
    + intros [[-> ->]|[_ H]]; [done | by inv H].
  - csimpl in Hnd. apply NoDup_cons in Hnd as [Hd0 Hnd].
    destruct (bool_decide (d0 = d)) eqn:E.
    + apply bool_decide_eq_true in E as ->. rewrite !elem_of_cons. split.
      * intros [[= -> ->]|Hin]; [by left|]. right. split; [|by right].
        intros ->. apply Hd0. by apply (list_elem_of_fmap_2 fst) in Hin.
      * intros [[-> ->]|[Hne [[= ? ?]|Hin]]]; [by left | done | by right].
    + apply bool_decide_eq_false in E. rewrite !elem_of_cons, (IH Hnd). split.
      * intros [[= -> ->]|[[-> ->]|[Hne Hin]]].
        -- right. split; [done | by left].
        -- by left.
        -- right. split; [done | by right].
      * intros [[-> ->]|[Hne [[= -> ->]|Hin]]].
        -- right. by left.
        -- by left.
        -- right. right. done.
Qed.

Lemma last_parsed_cons it data d v :
  last_parsed py_int (it :: data) d v ↔
  last_parsed py_int data d v ∨
  (parse_item py_int it = Parsed d v ∧ never_parsed py_int data d).
Proof.
  unfold last_parsed, never_parsed. split.
  - intros (pre & x & post & Hdata & Hx & Hpost). destruct pre as [|y pre].
    + injection Hdata as <- <-. right. split; [done|]. intros it' v' Hin. by apply Hpost.
    + injection Hdata as <- ->. left. by exists pre, x, post.
  - intros [(pre & x & post & -> & Hx & Hpost)|[Hit Hnever]].
    + by exists (it :: pre), x, post.
    + exists [], it, data. repeat split; [done|]. intros it' v' Hin. by apply Hnever.
Qed.

Lemma never_parsed_cons it data d :
  never_parsed py_int (it :: data) d ↔
  (∀ v', parse_item py_int it ≠ Parsed d v') ∧ never_parsed py_int data d.
Proof.
  unfold never_parsed. split.
  - intros H. split; [intros v'; apply H; by left|]. intros it' v' Hin. apply H. by right.
  - intros [Hit H] it' v' [->|Hin]%elem_of_cons; [apply Hit | by apply H].
Qed.

(** What the loop returns, from records with distinct dates: distinct dates
    again; for a date some entry gives a record for, the value of the last
    such entry; for any other date, the record it had. *)
Lemma records_loop_spec data : ∀ records out,
  NoDup records.*1 → records_loop py_int data records = Ok out →
  NoDup out.*1 ∧
  ∀ d v, (d, v) ∈ out ↔
         last_parsed py_int data d v ∨ (never_parsed py_int data d ∧ (d, v) ∈ records).
Proof.
  induction data as [|it data IH]; intros records out Hnd; simpl.
  - intros [= <-]. split; [done|]. intros d v. split.
    + intros Hin. right. split; [|done]. intros it v' Hit. by inv Hit.
    + intros [(pre & x & post & Hnil & _)|[_ Hin]]; [by destruct pre | done].
  - destruct (parse_item py_int it) as [d0 v0| |e] eqn:Hit; [| |done].
    + intros Hloop.
      destruct (IH _ _ (records_set_NoDup records d0 v0 Hnd) Hloop) as [Hout Hspec].
      split; [done|]. intros d v.
      rewrite Hspec, last_parsed_cons, never_parsed_cons, Hit,
        (elem_of_records_set records d0 v0 d v Hnd).
      assert (Parsed d0 v0 = Parsed d v ↔ d = d0 ∧ v = v0) as ->.
      { split; [by intros [= -> ->] | by intros [-> ->]]. }
      assert ((∀ v', Parsed d0 v0 ≠ Parsed d v') ↔ d ≠ d0) as ->.
      { split; [intros H ->; by apply (H v0) | by intros H v' [= ->]]. }
      destruct (decide (d = d0)); tauto.
    + intros Hloop. destruct (IH _ _ Hnd Hloop) as [Hout Hspec].
      split; [done|]. intros d v.
      rewrite Hspec, last_parsed_cons, never_parsed_cons, Hit.
      assert (Skipped = Parsed d v ↔ False) as -> by done.
      assert ((∀ v', Skipped ≠ Parsed d v') ↔ True) as -> by done.
      tauto.
Qed.

Lemma parse_item_valid it d v : parse_item py_int it = Parsed d v → valid_date d.
Proof.
  unfold parse_item. destruct (item_get it "timestamp") as [ts|]; [|done].
  destruct (py_int <$> split_on "-" ts) as [|[dd|] [|[mm|] [|[yy|] [|? ?]]]]; try done.
  unfold dt_date. destruct (negb _); [done|].
  destruct (in_calendar yy mm dd) eqn:Hcal; [|done].
  destruct (item_get it "value") as [value|]; [|done].
  destruct (py_int value); [|done]. intros [= <- _].
  unfold in_calendar in Hcal. unfold valid_date. simpl.
  repeat (apply andb_true_iff in Hcal as [Hcal ?]). lia.
Qed.

Lemma parse_item_Aborted it e : parse_item py_int it = Aborted e → e = OverflowError.
Proof.
  unfold parse_item. destruct (item_get it "timestamp") as [ts|]; [|done].
  destruct (py_int <$> split_on "-" ts) as [|[dd|] [|[mm|] [|[yy|] [|? ?]]]]; try done.
  destruct (dt_date yy mm dd); [|done|by intros [= <-]].
  destruct (item_get it "value") as [value|]; [|done]. by destruct (py_int value).
Qed.

Lemma records_loop_skip pre it post : ∀ records,
  parse_item py_int it = Skipped →
  records_loop py_int (pre ++ it :: post) records = records_loop py_int (pre ++ post) records.
Proof.
  induction pre as [|x pre IH]; intros records Hit; simpl.
  - by rewrite Hit.
  - destruct (parse_item py_int x); [by apply IH | by apply IH | done].
Qed.

Lemma records_loop_all_skipped data records :
  (∀ it, it ∈ data → parse_item py_int it = Skipped) →
  records_loop py_int data records = Ok records.
Proof.
  induction data as [|it data IH]; intros Hall; simpl; [done|].
  rewrite (Hall it) by (by left). apply IH. intros it' Hin. apply Hall. by right.
Qed.

Lemma records_loop_Raise data : ∀ records e,
  records_loop py_int data records = Raise e → e = OverflowError.
Proof.
  induction data as [|it data IH]; intros records e; simpl; [done|].
  destruct (parse_item py_int it) as [d0 v0| |e0] eqn:Hit; [by apply IH | by apply IH |].
  intros [= <-]. by apply parse_item_Aborted in Hit.
Qed.

Lemma records_loop_abort pre it post e : ∀ records,
  parse_item py_int it = Aborted e →
  records_loop py_int (pre ++ it :: post) records = Raise OverflowError.
Proof.
  induction pre as [|x pre IH]; intros records Hit; simpl.
  - rewrite Hit. f_equal. by apply parse_item_Aborted in Hit.
  - destruct (parse_item py_int x) as [d0 v0| |e0] eqn:Hx; [by apply IH | by apply IH |].
    f_equal. by apply parse_item_Aborted in Hx.
Qed.

Lemma collect_records_Ok_spec data records :
  collect_records py_int data = Ok records →
  records ≠ [] ∧ NoDup records.*1 ∧
  (∀ d v, (d, v) ∈ records ↔ last_parsed py_int data d v) ∧
  (∀ d v, (d, v) ∈ records → valid_date d).
Proof.
  unfold collect_records.
  destruct (records_loop py_int data []) as [[|r out]|e] eqn:Hloop; [done| |done].
  intros [= <-]. destruct (records_loop_spec data [] (r :: out)) as [Hnd Hspec];
    [constructor | done |].
  split; [done|]. split; [done|].
  assert (Hlast : ∀ d v, (d, v) ∈ r :: out ↔ last_parsed py_int data d v).
  { intros d v. rewrite Hspec. split; [|by left].
    intros [?|[_ Hin]]; [done | by inv Hin]. }
  split; [done|]. intros d v (pre & it & post & _ & Hit & _)%Hlast.
  by eapply parse_item_valid.
Qed.

Lemma records_set_key records d v : d ∈ (records_set records d v).*1.
Proof.
  rewrite records_set_keys. destruct (bool_decide (d ∈ records.*1)) eqn:E.
  - by apply bool_decide_eq_true in E.
  - apply elem_of_app. right. by left.
Qed.

Lemma records_set_keeps records d v d' :
  d' ∈ records.*1 → d' ∈ (records_set records d v).*1.
Proof.
  intros Hin. rewrite records_set_keys. destruct (bool_decide (d ∈ records.*1)); [done|].
  apply elem_of_app. by left.
Qed.

Lemma records_loop_keeps data : ∀ records out d,
  d ∈ records.*1 → records_loop py_int data records = Ok out → d ∈ out.*1.
Proof.
  induction data as [|it data IH]; intros records out d Hin; simpl.
  - by intros [= <-].
  - destruct (parse_item py_int it) as [d0 v0| |e]; [| |done].
    + apply IH. by apply records_set_keeps.
    + by apply IH.
Qed.

Lemma records_loop_parsed data : ∀ records out it d v,
  it ∈ data → parse_item py_int it = Parsed d v →
  records_loop py_int data records = Ok out → d ∈ out.*1.
Proof.
  induction data as [|x data IH]; intros records out it d v Hin Hit; [by inv Hin|].
  simpl. apply elem_of_cons in Hin as [<-|Hin].
  - rewrite Hit. apply records_loop_keeps, records_set_key.
  - destruct (parse_item py_int x) as [d0 v0| |e]; [| |done]; by eapply IH.
Qed.

End RecordsFacts.

(** When the loop over the entries of the response yields records, there is
    at least one; no date occurs twice; each date is a date of the calendar;
    and a date has the value of the last entry that gives a record for it:
    a later entry for the same day replaces an earlier one. *)
Theorem alternative_records_last_entry_wins (py_int : string → option Z)
    (data : list AlternativeMe.item) (records : list (AlternativeMe.date * Z)) :
  AlternativeMe.collect_records py_int data = Ok records →
  records ≠ [] ∧ NoDup records.*1 ∧
  (∀ d v, (d, v) ∈ records ↔ AlternativeMe.last_parsed py_int data d v) ∧
  (∀ d v, (d, v) ∈ records → AlternativeMe.valid_date d).
Proof. apply collect_records_Ok_spec. Qed.

(** Two entries for 29 February 2024 and one for the day before. *)
Lemma alternative_records_last_entry_wins_witness :
  let data := [[("value", "40"); ("timestamp", "29-02-2024")];
               [("value", "1"); ("timestamp", "28-02-2024")];
               [("value", "41"); ("timestamp", "29-02-2024")]] in
  let records := [({| AlternativeMe.year := 2024; AlternativeMe.month := 2;
                      AlternativeMe.day := 29 |}, 41);
                  ({| AlternativeMe.year := 2024; AlternativeMe.month := 2;
                      AlternativeMe.day := 28 |}, 1)] in
  records ≠ [] ∧ NoDup records.*1 ∧
  (∀ d v, (d, v) ∈ records ↔
          AlternativeMe.last_parsed AlternativeMe.int_of_digits data d v) ∧
  (∀ d v, (d, v) ∈ records → AlternativeMe.valid_date d).
Proof.
  intros data records.
  apply (alternative_records_last_entry_wins AlternativeMe.int_of_digits data records).
  reflexivity.
Defined.

(** An entry the loop skips (no [timestamp], a timestamp that is not three
    integers joined by hyphens, a date that is not in the calendar, no
    [value], a value that is no integer) leaves no trace: the outcome for
    the whole response is the outcome for the response without that
    entry. *)
Theorem alternative_records_skip (py_int : string → option Z)
    (pre post : list AlternativeMe.item) (it : AlternativeMe.item) :
  AlternativeMe.parse_item py_int it = AlternativeMe.Skipped →
  AlternativeMe.collect_records py_int (pre ++ it :: post)
  = AlternativeMe.collect_records py_int (pre ++ post).
Proof.
  intros Hit. unfold AlternativeMe.collect_records. by rewrite records_loop_skip.
Qed.

(** An entry dated 31 February between two good entries. *)
Lemma alternative_records_skip_witness :
  let good1 := [("value", "40"); ("timestamp", "01-02-2024")] in
  let bad := [("value", "50"); ("timestamp", "31-02-2024")] in
  let good2 := [("value", "41"); ("timestamp", "02-02-2024")] in
  AlternativeMe.collect_records AlternativeMe.int_of_digits ([good1] ++ bad :: [good2])
  = AlternativeMe.collect_records AlternativeMe.int_of_digits ([good1] ++ [good2]).
Proof.
  intros good1 bad good2.
  apply (alternative_records_skip AlternativeMe.int_of_digits [good1] [good2] bad).
  reflexivity.
Defined.

(** The ValueError for a response without a valid record is raised exactly
    when every entry is skipped, an empty response included. *)
Theorem alternative_records_none_valid (py_int : string → option Z)
    (data : list AlternativeMe.item) :
  AlternativeMe.collect_records py_int data = Raise (ValueError "No valid data records found")
  ↔ ∀ it, it ∈ data → AlternativeMe.parse_item py_int it = AlternativeMe.Skipped.
Proof.
  unfold AlternativeMe.collect_records. split.
  - destruct (AlternativeMe.records_loop py_int data []) as [[|r out]|e] eqn:Hloop.
    + intros _ it Hit.
      destruct (AlternativeMe.parse_item py_int it) as [d v| |e] eqn:Hp; [|done|].
      * pose proof (records_loop_parsed py_int data [] [] it d v Hit Hp Hloop) as Hin.
        by inv Hin.
      * apply list_elem_of_split in Hit as (pre & post & ->).
        by rewrite (records_loop_abort py_int pre it post e [] Hp) in Hloop.
    + done.
    + intros [= ->]. by apply records_loop_Raise in Hloop.
  - intros Hall. by rewrite records_loop_all_skipped.
Qed.

(** An entry whose day, month or year is an integer that does not fit a C
    int makes [dt.date] raise OverflowError, which the loop does not catch:
    the whole response is lost, whatever the other entries are. *)
Theorem alternative_records_overflow (py_int : string → option Z)
    (pre post : list AlternativeMe.item) (it : AlternativeMe.item)
    (ts : string) (d m y : Z) :
  AlternativeMe.item_get it "timestamp" = Some ts →
  py_int <$> AlternativeMe.split_on "-" ts = [Some d; Some m; Some y] →
  ¬ (- 2 ^ 31 ≤ d ≤ 2 ^ 31 - 1 ∧ - 2 ^ 31 ≤ m ≤ 2 ^ 31 - 1 ∧ - 2 ^ 31 ≤ y ≤ 2 ^ 31 - 1) →
  AlternativeMe.collect_records py_int (pre ++ it :: post)
  = Raise AlternativeMe.OverflowError.
Proof.
  intros Hts Hsplit Hfit.
  assert (AlternativeMe.parse_item py_int it
          = AlternativeMe.Aborted AlternativeMe.OverflowError) as Hit.
  { unfold AlternativeMe.parse_item. rewrite Hts, Hsplit. unfold AlternativeMe.dt_date.
    destruct (AlternativeMe.fits_c_int y && AlternativeMe.fits_c_int m
              && AlternativeMe.fits_c_int d) eqn:E; [|done].
    destruct Hfit. unfold AlternativeMe.fits_c_int in E.
    repeat (apply andb_true_iff in E as [E ?]). lia. }
  unfold AlternativeMe.collect_records.
  by rewrite (records_loop_abort py_int pre it post _ [] Hit).
Qed.

(** A year of eleven digits after a good entry. *)
Lemma alternative_records_overflow_witness :
  AlternativeMe.collect_records AlternativeMe.int_of_digits
    ([[("value", "40"); ("timestamp", "01-02-2024")]]
     ++ [("value", "41"); ("timestamp", "01-01-99999999999")] :: [])
  = Raise AlternativeMe.OverflowError.
Proof.
  apply (alternative_records_overflow AlternativeMe.int_of_digits
           [[("value", "40"); ("timestamp", "01-02-2024")]] []
           [("value", "41"); ("timestamp", "01-01-99999999999")]
           "01-01-99999999999" 1 1 99999999999).
  - reflexivity.
  - reflexivity.
  - lia.
Defined.


(* ------------------------------------------------------------------ *)
(** ** How often the loader reads *)

(** The loop of the wrapper on a function that adds at most [k] to a
    counter kept next to the world, and otherwise behaves as [func]. *)
Lemma wrapper_loop_count {W A : Type} (elapse : Z → W → W) (max_retries delay : Z)
    (func : IO W A) (func_c : IO (W * nat) A) (k : nat) :
  (∀ w n, ∃ r w' n', func_c (w, n) = (r, (w', n')) ∧ func w = (r, w') ∧ (n' ≤ n + k)%nat) →
  ∀ attempts w n, ∃ r w' n',
    wrapper_loop (counting_elapse elapse) max_retries delay func_c attempts (w, n)
      = (r, (w', n')) ∧
    wrapper_loop elapse max_retries delay func attempts w = (r, w') ∧
    (n' ≤ n + k * length attempts)%nat.
Proof.
  intros Hrel. induction attempts as [|attempt rest IH]; intros w n; simpl.
  - exists (Ok None), w, n. repeat split; lia.
  - destruct (Hrel w n) as (r0 & w1 & n1 & -> & -> & Hn1).
    destruct r0 as [v|e].
    { exists (Ok (Some v)), w1, n1. repeat split; lia. }
    destruct (is_Exception e).
    2:{ exists (Raise e), w1, n1. repeat split; lia. }
    destruct (attempt =? max_retries - 1).
    { exists (Raise e), w1, n1. repeat split; lia. }
    unfold time_sleep. unfold counting_elapse at 1. simpl.
    destruct (delay <? 0).
    { eexists _, w1, n1. repeat split; lia. }
    destruct (IH (elapse delay w1) n1) as (r & w' & n' & -> & -> & Hn').
    exists r, w', n'. repeat split; lia.
Qed.

Lemma _load_series_body_count {W : Type} (elapse : Z → W → W)
    (path_exists : Path → W → bool) (read_csv : Path → IO W DataFrame)
    (path : Path) (value_col : option string) (w : W) (n : nat) :
  ∃ r w' n',
    _load_series_body (counting_elapse elapse) (counting_exists path_exists)
      (counting_read read_csv) path value_col (w, n) = (r, (w', n')) ∧
    _load_series_body elapse path_exists read_csv path value_col w = (r, w') ∧
    (n' ≤ n + 2)%nat.
Proof.
  unfold _load_series_body, counting_exists, counting_read. simpl.
  destruct (path_exists path w); simpl; [|eexists _, w, n; repeat split; lia].
  destruct (read_csv path w) as [[df|e] w1] eqn:Hr.
  - destruct (bool_decide _); eexists _, w1, (S n); repeat split; lia.
  - destruct (is_PermissionError e).
    + unfold time_sleep, counting_elapse. simpl.
      destruct (read_csv path (elapse 1 w1)) as [[df|e'] w2] eqn:Hr2.
      * destruct (bool_decide _); eexists _, w2, (S (S n)); repeat split; lia.
      * eexists _, w2, (S (S n)). repeat split; lia.
    + eexists _, w1, (S n). repeat split; lia.
Qed.

(** One call of the loader reads the file at most six times: at most twice
    in each of its three attempts.  The count is kept by a world that adds
    one at each [read_csv]; the run on that world agrees with the run on the
    world itself. *)
Theorem load_series_reads_at_most_six {W : Type} (elapse : Z → W → W)
    (path_exists : Path → W → bool) (read_csv : Path → IO W DataFrame)
    (path : Path) (value_col : option string) (w : W) (n : nat) :
  ∃ r w' n',
    _load_series (counting_elapse elapse) (counting_exists path_exists)
      (counting_read read_csv) path value_col (w, n) = (r, (w', n')) ∧
    _load_series elapse path_exists read_csv path value_col w = (r, w') ∧
    (n' ≤ n + 6)%nat.
Proof.
  unfold _load_series, retry_on_error.
  destruct (wrapper_loop_count elapse 3 1
              (_load_series_body elapse path_exists read_csv path value_col)
              (_load_series_body (counting_elapse elapse) (counting_exists path_exists)
                 (counting_read read_csv) path value_col) 2
              (_load_series_body_count elapse path_exists read_csv path value_col)
              (range 3) w n) as (r & w' & n' & Hc & Hp & Hn).
  exists r, w', n'. split; [done|]. split; [done|].
  change (length (range 3)) with 3%nat in Hn. lia.
Qed.


(* ------------------------------------------------------------------ *)
(** ** A dataset with a single file *)

(** For a dataset with one file that is not there and does not appear while
    the loader waits: when the dataset is required, resolution raises the
    loader's FileNotFoundError, which names the path of the file and not the
    dataset; when it is not required, resolution goes on with [series_dict]
    as it was. *)
Theorem resolve_missing_single_file {W : Type} (elapse : Z → W → W)
    (path_exists : Path → W → bool) (read_csv : Path → IO W DataFrame)
    (key file c : string) (series_dict : dict) (w : W) :
  path_exists (path_join RAW_DIR file) w = false →
  path_exists (path_join RAW_DIR file) (elapse 1 w) = false →
  path_exists (path_join RAW_DIR file) (elapse 1 (elapse 1 w)) = false →
  resolve elapse path_exists read_csv key
    {| src := File file; col := c; required := true |} series_dict w
    = (Raise (FileNotFoundError ("找不到檔案：" +:+ path_str (path_join RAW_DIR file))),
       elapse 1 (elapse 1 w)) ∧
  resolve elapse path_exists read_csv key
    {| src := File file; col := c; required := false |} series_dict w
    = (Ok series_dict, elapse 1 (elapse 1 w)).
Proof.
  intros H0 H1 H2. unfold resolve. simpl.
  by rewrite (_load_series_missing elapse path_exists read_csv _ (Some c) w H0 H1 H2).
Qed.

(** Resolution of a dataset with one file on an empty directory. *)
Lemma resolve_missing_single_file_witness :
  resolve Example.no_elapse Example.fs_exists Example.fs_read_csv "spy"
    {| src := File "spy.csv"; col := "spy_price"; required := true |} [] []
    = (Raise (FileNotFoundError
                ("找不到檔案：" +:+ path_str (path_join RAW_DIR "spy.csv"))),
       Example.no_elapse 1 (Example.no_elapse 1 [])) ∧
  resolve Example.no_elapse Example.fs_exists Example.fs_read_csv "spy"
    {| src := File "spy.csv"; col := "spy_price"; required := false |} [] []
    = (Ok [], Example.no_elapse 1 (Example.no_elapse 1 [])).
Proof.
  apply (resolve_missing_single_file Example.no_elapse Example.fs_exists
           Example.fs_read_csv "spy" "spy.csv" "spy_price" [] []); reflexivity.
Defined.

(* ------------------------------------------------------------------ *)
(** ** When a mean is logged *)

Lemma closed_run_nil : ¬ closed_run [].
Proof. intros (pre & post & H & _). by destruct pre. Qed.

Lemma closed_run_cons_HOLD sigs :
  closed_run (HOLD :: sigs) ↔ Exists (λ s, s ≠ HOLD) sigs ∨ closed_run sigs.
Proof.
  unfold closed_run. split.
  - intros (pre & post & Heq & Hex). destruct pre as [|x pre].
    + simplify_eq/=. by left.
    + simplify_eq/=. right. by exists pre, post.
  - intros [Hex|(pre & post & -> & Hex)].
    + by exists [], sigs.
    + by exists (HOLD :: pre), post.
Qed.

Lemma closed_run_cons_other s sigs :
  s ≠ HOLD → closed_run (s :: sigs) ↔ closed_run sigs.
Proof.
  intros Hs. unfold closed_run. split.
  - intros (pre & post & Heq & Hex). destruct pre as [|x pre].
    + by simplify_eq/=.
    + simplify_eq/=. by exists pre, post.
  - intros (pre & post & -> & Hex). by exists (s :: pre), post.
Qed.

Lemma hold_loop_nonempty sigs : ∀ hold_periods cur,
  0 ≤ cur →
  (hold_loop sigs hold_periods cur).1 ≠ [] ↔
  hold_periods ≠ [] ∨ (0 < cur ∧ Exists (λ s, s ≠ HOLD) sigs) ∨ closed_run sigs.
Proof.
  induction sigs as [|s sigs IH]; intros hp cur Hcur; simpl.
  - split; [by left|]. intros [?|[[_ Hex]|Hcr]]; [done | by inv Hex |].
    by destruct (closed_run_nil Hcr).
  - destruct (bool_decide (s = HOLD)) eqn:E.
    + apply bool_decide_eq_true in E as ->.
      rewrite (IH hp (cur + 1)) by lia. rewrite closed_run_cons_HOLD, Exists_cons.
      split.
      * intros [?|[[_ Hex]|Hcr]]; [by left | right; right; by left | right; right; by right].
      * intros [?|[[_ [?|Hex]]|[Hex|Hcr]]]; [by left | done | | | by right; right].
        -- right. left. split; [lia | done].
        -- right. left. split; [lia | done].
    + apply bool_decide_eq_false in E.
      rewrite (closed_run_cons_other s sigs E), Exists_cons.
      destruct (0 <? cur) eqn:Ec.
      * apply Z.ltb_lt in Ec. rewrite (IH (hp ++ [cur]) 0) by lia. split.
        -- intros _. right. left. split; [done | by left].
        -- intros _. left. by destruct hp.
      * apply Z.ltb_ge in Ec. rewrite (IH hp 0) by lia. split.
        -- intros [?|[[? _]|Hcr]]; [by left | lia | by right; right].
        -- intros [?|[[? _]|Hcr]]; [by left | lia | by right; right].
Qed.

(** [_print_signal_stats] logs a mean exactly when the sequence holds a HOLD
    that a label other than HOLD follows later on: for a sequence of HOLD
    labels only, or one whose HOLD labels all come after its last other
    label, no mean is logged at all. *)
Theorem print_signal_stats_logs_mean (df : LabeledFrame) :
  (∃ avg, (INFO, AverageHold avg) ∈ _print_signal_stats df) ↔
  ∃ pre post, signals df = pre ++ HOLD :: post ∧ Exists (λ s, s ≠ HOLD) post.
Proof.
  fold (closed_run (signals df)).
  pose proof (hold_loop_nonempty (signals df) [] 0 ltac:(lia)) as Hne.
  fold (hold_periods_of (signals df)) in Hne.
  unfold _print_signal_stats, avg_hold.
  destruct (hold_periods_of (signals df)) as [|p l] eqn:Ep.
  - split.
    + intros (avg & Hin). apply list_elem_of_singleton in Hin. done.
    + intros Hcr. destruct Hne as [_ Hne]. destruct Hne; [|done]. by right; right.
  - split.
    + intros _. destruct Hne as [Hne _].
      destruct Hne as [?|[[? _]|?]]; [done | done | lia | done].
    + intros _. eexists. right. by left.
Qed.
